(** * Source-path resolution of [Scripts/init.py]

    A shallow embedding of [check_dirs_exist] and [check_or_create_config]
    together with the parts of the Python runtime they lean on: path
    strings, the directory tree, the JSON document held in [config_data],
    [shutil.copytree] / [shutil.move], and the operator's input lines.

    Scope of the runtime model.  The tree holds regular files and
    directories only; a copied source that contains symbolic links is
    treated apart ([lnode], [copy_call]).  Names are compared literally;
    ["."] and [".."] are ordinary names; a path string is resolved from a
    single root, its components being the non-empty pieces between
    separators.  Purely informational console banners are left out of the
    event log; prompts, warnings, errors, success notices and the progress
    line are kept. *)

From Stdlib Require Import String Ascii List Bool Arith ZArith Lia.
Import ListNotations.
Open Scope string_scope.
Set Warnings "-register-all".

(** ** Strings and path strings *)

Module PathStr.

Definition backslash : ascii := Ascii.ascii_of_nat 92.
Definition slash : ascii := Ascii.ascii_of_nat 47.

(** Both separators are accepted on input, as [ntpath] does. *)
Definition is_sep (c : ascii) : bool :=
  Ascii.eqb c backslash || Ascii.eqb c slash.

(** [str.strip()] with no argument: ASCII white space on both ends. *)
Definition is_space (c : ascii) : bool :=
  let n := Ascii.nat_of_ascii c in
  Nat.eqb n 32 || (Nat.leb 9 n && Nat.leb n 13)
  || (Nat.leb 28 n && Nat.leb n 31).

Fixpoint lstrip (s : string) : string :=
  match s with
  | EmptyString => EmptyString
  | String c r => if is_space c then lstrip r else s
  end.

Fixpoint rstrip (s : string) : string :=
  match s with
  | EmptyString => EmptyString
  | String c r =>
      match rstrip r with
      | EmptyString => if is_space c then EmptyString else String c EmptyString
      | r' => String c r'
      end
  end.

Definition strip (s : string) : string := rstrip (lstrip s).

Definition is_empty (s : string) : bool :=
  match s with EmptyString => true | _ => false end.

Fixpoint last_char (s : string) : option ascii :=
  match s with
  | EmptyString => None
  | String c EmptyString => Some c
  | String _ r => last_char r
  end.

(** [os.path.join(a, b)] for [b] a relative path without a drive: a
    separator is inserted unless [a] is empty or already ends with one.
    An absolute or drive-qualified [b] makes the library drop [a]; that
    case is not described here, and statements about arbitrary second
    arguments carry the side condition [plain_name]. *)
Definition join (a b : string) : string :=
  match last_char a with
  | None => b
  | Some c => if is_sep c then a ++ b else a ++ String backslash b
  end.

(** Components of a path string. *)
Fixpoint split_aux (s : string) (cur : string) : list string :=
  match s with
  | EmptyString => if is_empty cur then [] else [cur]
  | String c r =>
      if is_sep c
      then (if is_empty cur then split_aux r "" else cur :: split_aux r "")
      else split_aux r (cur ++ String c "")
  end.

Definition split (s : string) : list string := split_aux s "".

Fixpoint is_prefix (p q : list string) : bool :=
  match p, q with
  | [], _ => true
  | x :: p', y :: q' => String.eqb x y && is_prefix p' q'
  | _ :: _, [] => false
  end.

End PathStr.

(** ** JSON documents, as Python objects *)

(** What [json.load] yields, plus the one non-serialisable object the
    function itself stores into [config_data]: a [pathlib.Path]. *)
Inductive json : Type :=
| JNull
| JBool (b : bool)
| JNum (z : Z)
| JStr (s : string)
| JArr (l : list json)
| JObj (m : list (string * json))
| JPathObj (p : string).

(** Does [json.dump] accept the value?  A [Path] makes it raise
    [TypeError]. *)
Fixpoint serialisable (j : json) : bool :=
  match j with
  | JPathObj _ => false
  | JArr l => forallb serialisable l
  | JObj m =>
      (fix go (m : list (string * json)) : bool :=
         match m with
         | [] => true
         | (_, v) :: m' => serialisable v && go m'
         end) m
  | _ => true
  end.

(** Python [dict]: insertion-ordered, keys unique. *)
Fixpoint dict_lookup (m : list (string * json)) (k : string) : option json :=
  match m with
  | [] => None
  | (k', v) :: m' => if String.eqb k k' then Some v else dict_lookup m' k
  end.

Fixpoint dict_set (m : list (string * json)) (k : string) (v : json)
  : list (string * json) :=
  match m with
  | [] => [(k, v)]
  | (k', v') :: m' =>
      if String.eqb k k' then (k, v) :: m' else (k', v') :: dict_set m' k v
  end.

(** [obj.get(k, default)]: [None] stands for the [AttributeError] raised
    when [obj] is not a dict. *)
Definition py_get (obj : json) (k : string) (default : json) : option json :=
  match obj with
  | JObj m => Some (match dict_lookup m k with Some v => v | None => default end)
  | _ => None
  end.

(** Line 125: the chained [.get] that reads the recorded path.  An
    absent last key gives Python's [None], here [JNull]. *)
Definition read_source_path (config_data : json) : option json :=
  match py_get config_data "RemakeEngine" (JObj []) with
  | None => None
  | Some r =>
      match py_get r "Directories" (JObj []) with
      | None => None
      | Some d => py_get d "TSGPS2SourcePath" JNull
      end
  end.

(** The update block shared by the three save sites (lines 174-176,
    310-314, 359-363): create the missing levels, then set [key].  For a
    value that is not a dict at any of the three levels either the
    membership test or the item access that follows raises [TypeError]
    before anything is mutated; that is [None] here. *)
Definition set_directory_entry (config_data : json) (key : string) (v : json)
  : option json :=
  match config_data with
  | JObj m =>
      let r := match dict_lookup m "RemakeEngine" with
               | Some r => r | None => JObj [] end in
      match r with
      | JObj rm =>
          let d := match dict_lookup rm "Directories" with
                   | Some d => d | None => JObj [] end in
          match d with
          | JObj dm =>
              Some (JObj (dict_set m "RemakeEngine"
                      (JObj (dict_set rm "Directories"
                         (JObj (dict_set dm key v))))))
          | _ => None
          end
      | _ => None
      end
  | _ => None
  end.

(** ** The directory tree *)

(** A file either holds a JSON document (what [json.dump] wrote and
    [json.load] gives back) or bytes that do not parse as JSON. *)
Inductive content : Type :=
| Json (j : json)
| Unparseable.

Inductive node : Type :=
| File (c : content)
| Dir (entries : list (string * node)).

Module FS.

Fixpoint entry (es : list (string * node)) (name : string) : option node :=
  match es with
  | [] => None
  | (n, x) :: es' => if String.eqb name n then Some x else entry es' name
  end.

Fixpoint set_entry (es : list (string * node)) (name : string) (x : node)
  : list (string * node) :=
  match es with
  | [] => [(name, x)]
  | (n, y) :: es' =>
      if String.eqb name n then (n, x) :: es' else (n, y) :: set_entry es' name x
  end.

Fixpoint del_entry (es : list (string * node)) (name : string)
  : list (string * node) :=
  match es with
  | [] => []
  | (n, y) :: es' =>
      if String.eqb name n then es' else (n, y) :: del_entry es' name
  end.

Fixpoint lookup (fs : node) (p : list string) : option node :=
  match p with
  | [] => Some fs
  | name :: p' =>
      match fs with
      | Dir es =>
          match entry es name with
          | Some x => lookup x p'
          | None => None
          end
      | File _ => None
      end
  end.

Definition is_dir_node (x : option node) : bool :=
  match x with Some (Dir _) => true | _ => false end.

(** [os.path.isdir], [os.path.exists] on a path string. *)
Definition isdir (fs : node) (path : string) : bool :=
  is_dir_node (lookup fs (PathStr.split path)).

Definition exists_ (fs : node) (path : string) : bool :=
  match lookup fs (PathStr.split path) with Some _ => true | None => false end.

(** Replace (or create) what is at [p]; every strict prefix of [p] has to
    be a directory already. *)
Fixpoint put (fs : node) (p : list string) (x : node) : option node :=
  match p with
  | [] => Some x
  | name :: p' =>
      match fs with
      | Dir es =>
          match p' with
          | [] => Some (Dir (set_entry es name x))
          | _ =>
              match entry es name with
              | Some sub =>
                  match put sub p' x with
                  | Some sub' => Some (Dir (set_entry es name sub'))
                  | None => None
                  end
              | None => None
              end
          end
      | File _ => None
      end
  end.

(** [open(path, 'w')] followed by a complete write: the parent must be a
    directory and the target must not be one. *)
Definition write_file (fs : node) (path : string) (c : content) : option node :=
  let p := PathStr.split path in
  match lookup fs p with
  | Some (Dir _) => None
  | _ => match p with [] => None | _ => put fs p (File c) end
  end.

Definition read_file (fs : node) (path : string) : option content :=
  match lookup fs (PathStr.split path) with
  | Some (File c) => Some c
  | _ => None
  end.

(** [os.makedirs(path, exist_ok=True)]: fails when a component is a
    regular file. *)
Fixpoint mkdirs (fs : node) (p : list string) : option node :=
  match fs with
  | File _ => None
  | Dir es =>
      match p with
      | [] => Some fs
      | name :: p' =>
          let sub := match entry es name with Some x => x | None => Dir [] end in
          match mkdirs sub p' with
          | Some sub' => Some (Dir (set_entry es name sub'))
          | None => None
          end
      end
  end.

(** Unlink the subtree at [p]. *)
Fixpoint remove (fs : node) (p : list string) : option node :=
  match p with
  | [] => None
  | name :: p' =>
      match fs with
      | Dir es =>
          match p' with
          | [] => match entry es name with
                  | Some _ => Some (Dir (del_entry es name))
                  | None => None
                  end
          | _ =>
              match entry es name with
              | Some sub =>
                  match remove sub p' with
                  | Some sub' => Some (Dir (set_entry es name sub'))
                  | None => None
                  end
              | None => None
              end
          end
      | File _ => None
      end
  end.

End FS.

(** ** Console events and injected operating-system failures *)

Inductive event : Type :=
| EvPromptPath                      (* line 165: [input("> ")] *)
| EvPromptChoice                    (* line 205: [input("Enter your choice ...")] *)
| EvProgress (completed total : nat) (* line 247: the progress line *)
| EvCreated                         (* line 103 *)
| EvErrorCreating                   (* line 107 *)
| EvErrorReading                    (* line 118 *)
| EvPathEmpty                       (* line 167 *)
| EvNotADirectory                   (* line 185 *)
| EvConfigUpdated                   (* lines 179, 317, 366 *)
| EvErrorUpdating                   (* lines 181, 319, 368 *)
| EvWarnNotSaved                    (* lines 182, 320, 369 *)
| EvNothingToCopy                   (* line 220 *)
| EvErrorCounting                   (* lines 227-228 *)
| EvCopySuccessful                  (* line 263 *)
| EvErrorCopy                       (* lines 271-272 *)
| EvMoveDestExists                  (* lines 279-280 *)
| EvMoveSuccessful                  (* line 290 *)
| EvErrorMove                       (* lines 294-295 *)
| EvUsingOriginal                   (* lines 300-301 *)
| EvInvalidChoice                   (* line 306 *)
| EvFoundUSRDIR                     (* lines 332-336 *)
| EvValidationPassed (list_name : string) (* line 355 *)
| EvValidationFailed.               (* lines 373-381 *)

(** Failures the operating system may inject (permissions, disk full).
    Every site below is executed at most once in a call, so one flag per
    site is enough; [f_copy] lists the invocations of the copy function
    (counted from 0) at which [shutil.copy2] raises [OSError]. *)
Record faults : Type := {
  f_create : bool;            (* line 101, [open] for the new file *)
  f_save_provisional : bool;  (* line 177 *)
  f_save_effective : bool;    (* line 315 *)
  f_save_final : bool;        (* line 364 *)
  f_copy : list nat;          (* line 241 *)
  f_move : bool               (* line 289 *)
}.

Definition no_faults : faults :=
  {| f_create := false; f_save_provisional := false; f_save_effective := false;
     f_save_final := false; f_copy := []; f_move := false |}.

(** ** [os.walk], [shutil.copytree], [shutil.move] *)

(** [os.walk(top)], reduced to the [files] component of each triple, top
    down, over a tree of regular files and directories.  A [top] that is
    not a directory yields nothing.  What the walk does at a symbolic
    link is in [walk_links]. *)
Fixpoint walk (x : node) : list (list string) :=
  match x with
  | File _ => []
  | Dir es =>
      (fix files (es : list (string * node)) : list string :=
         match es with
         | [] => []
         | (n, File _) :: es' => n :: files es'
         | (_, Dir _) :: es' => files es'
         end) es
      ::
      (fix subdirs (es : list (string * node)) : list (list string) :=
         match es with
         | [] => []
         | (_, x) :: es' =>
             match x with
             | File _ => subdirs es'
             | Dir _ => (walk x ++ subdirs es')%list
             end
         end) es
  end.

(** Lines 214-217: [total_files += len(files)] over the walk. *)
Definition count_total_files (src : node) : nat :=
  fold_left (fun total_files files => total_files + length files) (walk src) 0.

(** The state the copy threads: how often the copy function was entered,
    the [nonlocal] counter, the progress lines written, and whether
    [copytree] has collected an error. *)
Record copy_state : Type := {
  calls : nat;
  copied_files_count : nat;
  progress_out : list event;
  failed : bool
}.

Definition copy_start : copy_state :=
  {| calls := 0; copied_files_count := 0; progress_out := []; failed := false |}.

Definition copy_error (st : copy_state) : copy_state :=
  {| calls := S (calls st); copied_files_count := copied_files_count st;
     progress_out := progress_out st; failed := true |}.

(** Lines 242-249, after [copy2] returned. *)
Definition copy_done (total_files : nat) (st : copy_state) : copy_state :=
  {| calls := S (calls st);
     copied_files_count := S (copied_files_count st);
     progress_out :=
       (progress_out st
          ++ [EvProgress (S (copied_files_count st)) total_files])%list;
     failed := failed st |}.

(** [copy_with_progress(src, dst)] for the file [name] with content [c],
    [d] being the destination directory's entries.  [copy2] writes inside
    [dst] when [dst] is itself a directory. *)
Definition copy_with_progress (flt : list nat) (total_files : nat)
    (c : content) (d : list (string * node)) (name : string) (st : copy_state)
  : list (string * node) * copy_state :=
  if existsb (Nat.eqb (calls st)) flt then (d, copy_error st)
  else
    match FS.entry d name with
    | Some (Dir sub) =>
        match FS.entry sub name with
        | Some (Dir _) => (d, copy_error st)
        | _ => (FS.set_entry d name (Dir (FS.set_entry sub name (File c))),
                copy_done total_files st)
        end
    | _ => (FS.set_entry d name (File c), copy_done total_files st)
    end.

Definition fail_state (st : copy_state) : copy_state :=
  {| calls := calls st; copied_files_count := copied_files_count st;
     progress_out := progress_out st; failed := true |}.

(** [shutil.copytree(src, dst, dirs_exist_ok=True, copy_function=...)] on
    nodes: [dst] is what is at the destination now.  Errors of single
    entries are collected and the loop goes on. *)
Fixpoint copytree (flt : list nat) (total_files : nat)
    (src : node) (dst : option node) (st : copy_state)
  : option node * copy_state :=
  match src with
  | File _ => (dst, fail_state st)
  | Dir es =>
      match dst with
      | Some (File _) => (dst, fail_state st)
      | _ =>
          let d0 := match dst with Some (Dir d) => d | _ => [] end in
          let '(d1, st1) :=
            (fix each (es : list (string * node)) (d : list (string * node))
                 (st : copy_state) : list (string * node) * copy_state :=
               match es with
               | [] => (d, st)
               | (n, x) :: es' =>
                   match x with
                   | File c =>
                       let '(d', st') :=
                         copy_with_progress flt total_files c d n st in
                       each es' d' st'
                   | Dir _ =>
                       let '(r, st') :=
                         copytree flt total_files x (FS.entry d n) st in
                       each es'
                         (match r with
                          | Some x' => FS.set_entry d n x'
                          | None => d
                          end) st'
                   end
               end) es d0 st in
          (Some (Dir d1), st1)
      end
  end.

Definition node_at (fs : node) (path : string) : option node :=
  FS.lookup fs (PathStr.split path).

(** What is left of [dp] below [sp], when [dp] is at or below [sp]. *)
Fixpoint below (sp dp : list string) : option (list string) :=
  match sp, dp with
  | [], _ => Some dp
  | a :: sp', b :: dp' => if String.eqb a b then below sp' dp' else None
  | _ :: _, [] => None
  end.

(** How [shutil.copytree] proceeds, by where the destination lies.  The
    library lists the source, then makes the destination, then copies
    entry by entry, listing each subdirectory when it comes to it.
    - [Snapshot]: the destination is apart from the source, or inside it
      below a name the source does not have yet; the listing was taken
      before that name was made, so what is copied is the source as it
      was.
    - [Refused]: source and destination are the same directory; every
      single copy is refused ([SameFileError]) and nothing is written.
    - [RunsAway]: the destination is inside the source below a
      directory the source has; the copy comes to its own output and
      descends into it until the system refuses a path. *)
Inductive copy_mode : Type := Snapshot | Refused | RunsAway.

Definition copy_mode_of (es : list (string * node)) (sp dp : list string)
  : copy_mode :=
  match below sp dp with
  | None => Snapshot
  | Some [] => Refused
  | Some (x :: _) =>
      match FS.entry es x with
      | None => Snapshot
      | Some _ => RunsAway
      end
  end.

(** The state after a copy onto itself of a tree with [n] files. *)
Definition refused_state (n : nat) : copy_state :=
  {| calls := n; copied_files_count := 0; progress_out := [];
     failed := negb (Nat.eqb n 0) |}.

(** The call at lines 255-258.  It is reached only while [dst] does not
    exist (the guard of line 198), so [src] never lies inside [dst]; a
    destination that exists and overlaps the source is outside what this
    definition describes.  In the [RunsAway] case the call ends in the
    error that the handler of line 267 reports; the progress lines
    written on the way, which pass the total, and the directories left
    behind are not described: only the failure is, with the destination
    made. *)
Definition shutil_copytree (flt : list nat) (total_files : nat)
    (fs : node) (src dst : string) : node * copy_state :=
  let sp := PathStr.split src in
  let dp := PathStr.split dst in
  match FS.lookup fs sp with
  | Some (Dir es) =>
      match FS.mkdirs fs dp with
      | None => (fs, fail_state copy_start)
      | Some fs1 =>
          match copy_mode_of es sp dp with
          | RunsAway => (fs1, fail_state copy_start)
          | Refused => (fs1, refused_state (count_total_files (Dir es)))
          | Snapshot =>
              let '(r, st) :=
                copytree flt total_files (Dir es) (FS.lookup fs1 dp)
                  copy_start in
              match r with
              | Some x =>
                  match FS.put fs1 dp x with
                  | Some fs2 => (fs2, st)
                  | None => (fs1, fail_state st)
                  end
              | None => (fs1, fail_state st)
              end
          end
      end
  | _ => (fs, fail_state copy_start)
  end.

(** [shutil.move(src, dst)]: [None] is a raised exception, the tree being
    left as it was.  A [dst] inside [src] is refused by the library; an
    existing directory [dst] receives [src] under its own name; missing
    parents of [dst] are created by the copy the library falls back to. *)
Definition shutil_move (fault : bool) (fs : node) (src dst : string)
  : option node :=
  let sp := PathStr.split src in
  let dp := PathStr.split dst in
  if fault then None
  else if PathStr.is_prefix sp dp then None
  else
    match FS.lookup fs sp with
    | None => None
    | Some x =>
        let real_dst :=
          match FS.lookup fs dp with
          | Some (Dir _) => Some (dp ++ [last sp ""])%list
          | Some (File _) => None
          | None => Some dp
          end in
        match real_dst with
        | None => None
        | Some rp =>
            match FS.lookup fs rp with
            | Some _ => None
            | None =>
                match FS.remove fs sp with
                | None => None
                | Some fs1 =>
                    match FS.mkdirs fs1 (removelast rp) with
                    | None => None
                    | Some fs2 => FS.put fs2 rp x
                    end
                end
            end
        end
    end.

(** ** The module's constants *)

Definition USRDIR_DIRS : list string :=
  ["ENVS"; "FMV"; "GRAPHICS"; "GUIMENU"; "IRX"; "MISC"; "SOUNDS"; "SUBTITLE"].

Definition USRDIR_DIRS_ORIGINAL : list string :=
  ["ENVS"; "FMV"; "GRAPHICS"; "GUIMENU"; "IRX"; "MISC"; "SOUNDS"; "SUBTITLE"].

Inductive status : Type :=
| CREATED
| EXISTS_VALID
| EXISTS_MISSING_SOURCEPATH
| EXISTS_INVALID_SUBDIRS
| ERROR_CREATE
| ERROR_READ
| ERROR_CONFIG_UPDATE
| ERROR_INVALID_SOURCEPATH_DIR
| USER_PROVIDED_PATH_INVALID
| ERROR_FILE_OPERATION.

(** ** [check_dirs_exist] *)

Definition check_dirs_exist (fs : node) (base_path : string)
    (required_dirs : list string) : bool :=
  if negb (FS.isdir fs base_path) then false
  else
    let missing :=
      filter (fun dir_name =>
                negb (FS.isdir fs (PathStr.join base_path dir_name)))
             required_dirs in
    match missing with
    | [] => true
    | _ => false
    end.

(** ** Marker detection and validation against the two lists *)

Definition MARKER : string := "USRDIR".

(** Lines 130-136 and 327-334: the root whose subdirectories are checked. *)
Definition resolve_validation_root (fs : node) (root : string) : string :=
  let potential_usrdir_path := PathStr.join root MARKER in
  if FS.isdir fs potential_usrdir_path then potential_usrdir_path else root.

(** Lines 142-147 and 345-350 with the two lists as parameters: the pair
    [(found_original, found_usrdir)].  The second list is looked at only
    when the first did not match in full. *)
Definition validate_against (fs : node) (path_to_validate : string)
    (first second : list string) : bool * bool :=
  let found_original := check_dirs_exist fs path_to_validate first in
  let found_usrdir :=
    if negb found_original
    then check_dirs_exist fs path_to_validate second
    else false in
  (found_original, found_usrdir).

Definition validate_lists (fs : node) (path_to_validate : string)
  : bool * bool :=
  validate_against fs path_to_validate USRDIR_DIRS_ORIGINAL USRDIR_DIRS.

(** Lines 150 / 353. *)
Definition validation_passed (r : bool * bool) : bool := snd r || fst r.

(** Line 354. *)
Definition matched_list_name (r : bool * bool) : string :=
  if snd r then "USRDIR_DIRS" else "USRDIR_DIRS_ORIGINAL".

(** ** [check_or_create_config] *)

(** The second component of the returned tuple: [None], a [str], or the
    [pathlib.Path] built at line 327. *)
Inductive pyval : Type :=
| PNone
| PStr (s : string)
| PPath (s : string).

Inductive exn : Type :=
| EOFError            (* [input()] with no line left *)
| UnboundLocalError.  (* a local read before any assignment *)

Inductive outcome : Type :=
| Returned (s : status) (v : pyval)
| Raised (e : exn).

(** [os.fspath] *)
Definition fspath (v : pyval) : string :=
  match v with
  | PNone => ""
  | PStr s => s
  | PPath s => s
  end.

Definition to_json (v : pyval) : json :=
  match v with
  | PNone => JNull
  | PStr s => JStr s
  | PPath s => JPathObj s
  end.

(** Line 89-95. *)
Definition default_data (project_base_dir : string) : json :=
  JObj [("RemakeEngine",
         JObj [("Config", JObj [("project_path", JStr project_base_dir)]);
               ("Directories", JObj [("TSGPS2SourcePath", JStr "")]);
               ("Tools", JObj [])])].

(** [open(config_file_path, 'w')] then [json.dump]: the file is truncated
    on opening and the encoder writes piecewise, so a value it refuses
    leaves an incomplete text behind. *)
Definition dump_to_file (fault : bool) (fs : node) (config_file_path : string)
    (data : json) : node * bool :=
  if fault then (fs, false)
  else if serialisable data then
    match FS.write_file fs config_file_path (Json data) with
    | Some fs' => (fs', true)
    | None => (fs, false)
    end
  else
    match FS.write_file fs config_file_path Unparseable with
    | Some fs' => (fs', false)
    | None => (fs, false)
    end.

(** One save site: the [try] body and what its handler prints.  Returns
    the possibly mutated [config_data], the tree, and the lines printed. *)
Definition save_config (fault : bool) (config_file_path : string)
    (config_data : json) (key : string) (v : pyval) (fs : node)
  : json * node * list event :=
  match set_directory_entry config_data key (to_json v) with
  | None => (config_data, fs, [EvErrorUpdating; EvWarnNotSaved])
  | Some config_data' =>
      let '(fs', ok) := dump_to_file fault fs config_file_path config_data' in
      (config_data', fs',
       if ok then [EvConfigUpdated] else [EvErrorUpdating; EvWarnNotSaved])
  end.

(** Lines 122-158: is the recorded path usable as it stands?  Gives the
    path when it is. *)
Definition check_recorded_path (fs : node) (config_data : json)
  : option string :=
  match read_source_path config_data with
  | Some (JStr path_from_config) =>
      if negb (PathStr.is_empty path_from_config)
         && negb (PathStr.is_empty (PathStr.strip path_from_config))
      then
        if FS.isdir fs path_from_config then
          let path_to_validate := resolve_validation_root fs path_from_config in
          if validation_passed (validate_lists fs path_to_validate)
          then Some path_from_config
          else None
        else None
      else None
  | _ => None
  end.

Record prompted : Type := {
  p_path : string;
  p_config : json;
  p_fs : node;
  p_out : list event;
  p_stdin : list string
}.

(** Lines 163-185: ask until an existing directory is given; the right
    injection when the input ends first.  [out] collects what was printed
    so far.  The loop leaves only with a non-empty path, so the test of
    line 187 never fires. *)
Fixpoint prompt_loop (flt : faults) (config_file_path : string)
    (config_data : json) (fs : node) (out : list event) (stdin : list string)
  : prompted + list event :=
  match stdin with
  | [] => inr (out ++ [EvPromptPath])%list
  | line :: rest =>
      let out := (out ++ [EvPromptPath])%list in
      let user_input_path := PathStr.strip line in
      if PathStr.is_empty user_input_path then
        prompt_loop flt config_file_path config_data fs
          (out ++ [EvPathEmpty])%list rest
      else if FS.isdir fs user_input_path then
        let '(config_data', fs', evs) :=
          save_config (f_save_provisional flt) config_file_path config_data
            "MainTSGPS2SourcePath" (PStr user_input_path) fs in
        inl {| p_path := user_input_path; p_config := config_data';
               p_fs := fs'; p_out := (out ++ evs)%list; p_stdin := rest |}
      else
        prompt_loop flt config_file_path config_data fs
          (out ++ [EvNotADirectory])%list rest
  end.

(** How the choice loop of lines 204-306 ends. *)
Inductive transfer : Type :=
| Chosen (effective_source_path : string) (choice : string)
         (fs : node) (out : list event) (stdin : list string)
| Fatal (fs : node) (out : list event) (stdin : list string)
| InputEnded (fs : node) (out : list event).

Fixpoint choice_loop (flt : faults) (path_from_config local_data_path : string)
    (fs : node) (out : list event) (stdin : list string) : transfer :=
  match stdin with
  | [] => InputEnded fs (out ++ [EvPromptChoice])%list
  | line :: rest =>
      let out := (out ++ [EvPromptChoice])%list in
      let choice := PathStr.strip line in
      if String.eqb choice "1" then
        let total_files :=
          match node_at fs path_from_config with
          | Some src => count_total_files src
          | None => 0
          end in
        if Nat.eqb total_files 0 then
          match FS.mkdirs fs (PathStr.split local_data_path) with
          | Some fs' =>
              Chosen local_data_path choice fs'
                (out ++ [EvNothingToCopy])%list rest
          | None =>
              choice_loop flt path_from_config local_data_path fs
                (out ++ [EvNothingToCopy; EvErrorCounting])%list rest
          end
        else
          let '(fs', st) :=
            shutil_copytree (f_copy flt) total_files fs
              path_from_config local_data_path in
          if failed st
          then Fatal fs' (out ++ progress_out st ++ [EvErrorCopy])%list rest
          else Chosen local_data_path choice fs'
                 (out ++ progress_out st ++ [EvCopySuccessful])%list rest
      else if String.eqb choice "2" then
        if FS.exists_ fs local_data_path then
          choice_loop flt path_from_config local_data_path fs
            (out ++ [EvMoveDestExists])%list rest
        else
          match shutil_move (f_move flt) fs path_from_config local_data_path with
          | Some fs' =>
              Chosen local_data_path choice fs'
                (out ++ [EvMoveSuccessful])%list rest
          | None => Fatal fs (out ++ [EvErrorMove])%list rest
          end
      else if String.eqb choice "3" then
        Chosen path_from_config choice fs (out ++ [EvUsingOriginal])%list rest
      else
        choice_loop flt path_from_config local_data_path fs
          (out ++ [EvInvalidChoice])%list rest
  end.

(** What a call leaves behind. *)
Record world : Type := {
  w_fs : node;
  w_out : list event;
  w_stdin : list string
}.

(** Lines 308-383.  [choice] is [None] when the loop of line 204 never
    ran, so that the local of that name was never assigned. *)
Definition revalidate (flt : faults) (config_file_path : string)
    (config_data : json) (path_from_config effective_source_path : string)
    (choice : option string) (fs : node) (out : list event)
    (stdin : list string) : outcome * world :=
  let '(config_data1, fs1, evs1) :=
    save_config (f_save_effective flt) config_file_path config_data
      "TSGPS2SourcePath" (PStr effective_source_path) fs in
  let out1 := (out ++ evs1)%list in
  let potential_usrdir_path := PathStr.join effective_source_path MARKER in
  let marker := FS.isdir fs1 potential_usrdir_path in
  let path_to_validate :=
    if marker then PPath potential_usrdir_path
    else PStr effective_source_path in
  let out2 := if marker then (out1 ++ [EvFoundUSRDIR])%list else out1 in
  let found := validate_lists fs1 (fspath path_to_validate) in
  if validation_passed found then
    let '(_, fs2, evs2) :=
      save_config (f_save_final flt) config_file_path config_data1
        "TSGPS2SourcePath" path_to_validate fs1 in
    (Returned EXISTS_VALID path_to_validate,
     {| w_fs := fs2;
        w_out := (out2 ++ [EvValidationPassed (matched_list_name found)]
                    ++ evs2)%list;
        w_stdin := stdin |})
  else
    let out3 := (out2 ++ [EvValidationFailed])%list in
    let w := {| w_fs := fs1; w_out := out3; w_stdin := stdin |} in
    if marker then (Returned EXISTS_INVALID_SUBDIRS path_to_validate, w)
    else if negb (String.eqb effective_source_path path_from_config) then
      match choice with
      | Some _ => (Returned EXISTS_INVALID_SUBDIRS path_to_validate, w)
      | None => (Raised UnboundLocalError, w)
      end
    else (Returned EXISTS_INVALID_SUBDIRS path_to_validate, w).

(** Lines 191-306 followed by the rest. *)
Definition handle_source_path (flt : faults)
    (config_file_path local_data_path : string) (config_data : json)
    (path_from_config : string) (fs : node) (out : list event)
    (stdin : list string) : outcome * world :=
  if negb (FS.exists_ fs local_data_path) then
    match choice_loop flt path_from_config local_data_path fs out stdin with
    | Chosen effective_source_path choice fs' out' stdin' =>
        revalidate flt config_file_path config_data path_from_config
          effective_source_path (Some choice) fs' out' stdin'
    | Fatal fs' out' stdin' =>
        (Returned ERROR_FILE_OPERATION PNone,
         {| w_fs := fs'; w_out := out'; w_stdin := stdin' |})
    | InputEnded fs' out' =>
        (Raised EOFError, {| w_fs := fs'; w_out := out'; w_stdin := [] |})
    end
  else
    revalidate flt config_file_path config_data path_from_config
      local_data_path None fs out stdin.

(** The whole function.  [project_base_dir] is the directory the process
    runs in and [filename] a plain file name, so that
    [os.path.abspath(filename)] is their join. *)
Definition check_or_create_config (flt : faults)
    (project_base_dir filename : string) (w : world) : outcome * world :=
  let config_file_path := PathStr.join project_base_dir filename in
  let local_data_path :=
    PathStr.join project_base_dir "Source\GameFiles\SimpGamePS2" in
  let fs := w_fs w in
  if negb (FS.exists_ fs config_file_path) then
    match dump_to_file (f_create flt) fs config_file_path
            (default_data project_base_dir) with
    | (fs', true) =>
        (Returned CREATED PNone,
         {| w_fs := fs'; w_out := (w_out w ++ [EvCreated])%list;
            w_stdin := w_stdin w |})
    | (fs', false) =>
        (Returned ERROR_CREATE PNone,
         {| w_fs := fs'; w_out := (w_out w ++ [EvErrorCreating])%list;
            w_stdin := w_stdin w |})
    end
  else
    match FS.read_file fs config_file_path with
    | Some (Json config_data) =>
        match check_recorded_path fs config_data with
        | Some path_from_config =>
            handle_source_path flt config_file_path local_data_path
              config_data path_from_config fs (w_out w) (w_stdin w)
        | None =>
            match prompt_loop flt config_file_path config_data fs
                    (w_out w) (w_stdin w) with
            | inl p =>
                handle_source_path flt config_file_path local_data_path
                  (p_config p) (p_path p) (p_fs p) (p_out p) (p_stdin p)
            | inr out' =>
                (Raised EOFError,
                 {| w_fs := fs; w_out := out'; w_stdin := [] |})
            end
        end
    | _ =>
        (Returned ERROR_READ PNone,
         {| w_fs := fs; w_out := (w_out w ++ [EvErrorReading])%list;
            w_stdin := w_stdin w |})
    end.

(** ** Derived notions, and sample trees in the project directory [\proj] *)

(** A tree with the marker nested in itself. *)
Definition nested_marker_tree : node :=
  Dir [("game", Dir [("USRDIR", Dir [("USRDIR", Dir [])])])].

Definition plain_game_tree : node :=
  Dir [("game", Dir [("USRDIR", Dir [("ENVS", Dir [])])])].

Definition eight_dirs : list (string * node) :=
  map (fun n => (n, Dir [])) USRDIR_DIRS_ORIGINAL.

Definition full_game_tree : node := Dir [("game", Dir eight_dirs)].

(** What [revalidate] returns, read off the tree it starts from. *)
Definition verdict (fs : node) (path_from_config effective_source_path : string)
    (choice : option string) : outcome :=
  let marker := FS.isdir fs (PathStr.join effective_source_path MARKER) in
  let path_to_validate :=
    if marker then PPath (PathStr.join effective_source_path MARKER)
    else PStr effective_source_path in
  if validation_passed (validate_lists fs (fspath path_to_validate))
  then Returned EXISTS_VALID path_to_validate
  else if marker then Returned EXISTS_INVALID_SUBDIRS path_to_validate
  else if negb (String.eqb effective_source_path path_from_config) then
    match choice with
    | Some _ => Returned EXISTS_INVALID_SUBDIRS path_to_validate
    | None => Raised UnboundLocalError
    end
  else Returned EXISTS_INVALID_SUBDIRS path_to_validate.

Definition config_with (p : string) : json :=
  JObj [("RemakeEngine",
         JObj [("Config", JObj [("project_path", JStr "\proj")]);
               ("Directories", JObj [("TSGPS2SourcePath", JStr p)]);
               ("Tools", JObj [])])].

Definition project_with (p : string) (more : list (string * node)) : node :=
  Dir (("proj", Dir [("project.json", File (Json (config_with p)))]) :: more).

Definition run (flt : faults) (fs : node) (stdin : list string)
  : outcome * world :=
  check_or_create_config flt "\proj" "project.json"
    {| w_fs := fs; w_out := []; w_stdin := stdin |}.

Definition config_on_disk (w : world) : option content :=
  FS.read_file (w_fs w) "\proj\project.json".

(** The game under [\game\USRDIR], complete. *)
Definition marker_valid_tree : node :=
  project_with "\game" [("game", Dir [("USRDIR", Dir eight_dirs)])].

(** The game under [\game\USRDIR], with one required directory only. *)
Definition marker_invalid_tree : node :=
  project_with "" [("game", Dir [("USRDIR", Dir [("ENVS", Dir [])])])].

(** The game directly under [\game], complete; nothing recorded yet. *)
Definition fresh_valid_tree : node :=
  project_with "" [("game", Dir eight_dirs)].

Definition saves_fail : faults :=
  {| f_create := false; f_save_provisional := true; f_save_effective := true;
     f_save_final := true; f_copy := []; f_move := false |}.

(** The status of a call that got as far as the subdirectory check. *)
Definition ends_by_validation (o : outcome) : Prop :=
  match o with
  | Returned s _ => s = EXISTS_VALID \/ s = EXISTS_INVALID_SUBDIRS
  | Raised e => e = UnboundLocalError
  end.


(** The game directly under [\game], one required directory only. *)
Definition incomplete_tree : node :=
  project_with "" [("game", Dir [("ENVS", Dir [])])].

(** An incomplete game under [\game], next to the project. *)
Definition local_present_tree : node :=
  project_with ""
    [("game", Dir [("ENVS", Dir [])]);
     ("unused", Dir [])].

Definition with_local_dir (fs : node) : node :=
  match FS.mkdirs fs (PathStr.split "\proj\Source\GameFiles\SimpGamePS2") with
  | Some fs' => fs'
  | None => fs
  end.

(** A source with directories but no file in it. *)
Definition empty_source_tree : node :=
  project_with "\game" [("game", Dir [("ENVS", Dir [])])].

Definition empty_project : node := Dir [("proj", Dir [])].

(** The regular files below a directory, counted along the tree. *)
Fixpoint count_files (x : node) : nat :=
  match x with
  | File _ => 0
  | Dir es =>
      (fix go (es : list (string * node)) : nat :=
         match es with
         | [] => 0
         | (_, y) :: es' =>
             match y with
             | File _ => 1
             | Dir _ => count_files y
             end + go es'
         end) es
  end.

(** The loop over the entries inside [copytree], by name. *)
Fixpoint copy_entries (flt : list nat) (total_files : nat)
    (es d : list (string * node)) (st : copy_state)
  : list (string * node) * copy_state :=
  match es with
  | [] => (d, st)
  | (n, x) :: es' =>
      match x with
      | File c =>
          let '(d', st') := copy_with_progress flt total_files c d n st in
          copy_entries flt total_files es' d' st'
      | Dir _ =>
          let '(r, st') := copytree flt total_files x (FS.entry d n) st in
          copy_entries flt total_files es'
            (match r with
             | Some x' => FS.set_entry d n x'
             | None => d
             end) st'
      end
  end.

(** The progress lines [completed/total] for [completed] from [from]
    on, [n] of them. *)
Definition progress_lines (total_files from n : nat) : list event :=
  map (fun completed => EvProgress completed total_files) (seq from n).

(** [st'] continues [st] by exactly [n] copied files, unless an error was
    collected on the way. *)
Definition advances (total_files : nat) (st : copy_state) (n : nat)
    (st' : copy_state) : Prop :=
  failed st' = false ->
  failed st = false
  /\ copied_files_count st' = copied_files_count st + n
  /\ progress_out st'
     = (progress_out st
          ++ progress_lines total_files (S (copied_files_count st)) n)%list.

Fixpoint walk_files (es : list (string * node)) : list string :=
  match es with
  | [] => []
  | (n, File _) :: es' => n :: walk_files es'
  | (_, Dir _) :: es' => walk_files es'
  end.

Fixpoint walk_subdirs (es : list (string * node)) : list (list string) :=
  match es with
  | [] => []
  | (_, x) :: es' =>
      match x with
      | File _ => walk_subdirs es'
      | Dir _ => (walk x ++ walk_subdirs es')%list
      end
  end.

Definition add_files (total_files : nat) (files : list string) : nat :=
  total_files + length files.

(** A source with one file at the top and one a level down. *)
Definition two_files_tree : node :=
  project_with "\game"
    [("game", Dir [("a.bin", File Unparseable);
                   ("ENVS", Dir [("b.bin", File Unparseable)])])].

(** The shape of a tree: every file's content forgotten. *)
Fixpoint erase (x : node) : node :=
  match x with
  | File _ => File Unparseable
  | Dir es =>
      Dir ((fix each (es : list (string * node)) : list (string * node) :=
              match es with
              | [] => []
              | (n, y) :: es' => (n, erase y) :: each es'
              end) es)
  end.

Definition erase_entries (es : list (string * node)) : list (string * node) :=
  map (fun e => (fst e, erase (snd e))) es.




(** The value found by following a chain of keys through nested dicts. *)
Fixpoint lookup_keys (j : json) (ks : list string) : option json :=
  match ks with
  | [] => Some j
  | k :: ks' =>
      match j with
      | JObj m =>
          match dict_lookup m k with
          | Some v => lookup_keys v ks'
          | None => None
          end
      | _ => None
      end
  end.

(** Where the three save sites write. *)
Definition entry_keys (key : string) : list string :=
  ["RemakeEngine"; "Directories"; key].

(** A line the prompt loop accepts: not blank once stripped, and naming
    an existing directory. *)
Definition acceptable (fs : node) (line : string) : bool :=
  negb (PathStr.is_empty (PathStr.strip line))
  && FS.isdir fs (PathStr.strip line).

(** What the prompt loop ends with on a blank line, a path that is not
    there, and then the game directory. *)
Definition sample_prompted : prompted :=
  match prompt_loop no_faults "\proj\project.json" (config_with "")
          fresh_valid_tree [] [""; "\nowhere"; " \game "; "3"] with
  | inl p => p
  | inr _ => {| p_path := ""; p_config := JNull; p_fs := File Unparseable;
                p_out := []; p_stdin := [] |}
  end.

(** [st'] continues [st] by at most [n] copied files, whether or not
    errors were collected: the progress lines go on without a gap. *)
Definition advances_upto (total_files : nat) (st : copy_state) (n : nat)
    (st' : copy_state) : Prop :=
  exists k,
    k <= n
    /\ copied_files_count st' = copied_files_count st + k
    /\ progress_out st'
       = (progress_out st
            ++ progress_lines total_files (S (copied_files_count st)) k)%list.

(** Line 217's total for the tree at a path. *)
Definition total_files_at (fs : node) (path : string) : nat :=
  match node_at fs path with
  | Some src => count_total_files src
  | None => 0
  end.

(** A directory lists each name once, all the way down; every tree of a
    real file system is like that. *)
Fixpoint well_formed (x : node) : bool :=
  match x with
  | File _ => true
  | Dir es =>
      (fix each (es : list (string * node)) : bool :=
         match es with
         | [] => true
         | (n, y) :: es' =>
             match FS.entry es' n with
             | None => well_formed y && each es'
             | Some _ => false
             end
         end) es
  end.

(** The statuses [check_or_create_config] can return, with the kind of
    path value that comes with each. *)
Definition result_shape (o : outcome) : Prop :=
  match o with
  | Returned s v =>
      ((s = CREATED \/ s = ERROR_CREATE \/ s = ERROR_READ
        \/ s = ERROR_FILE_OPERATION) /\ v = PNone)
      \/ ((s = EXISTS_VALID \/ s = EXISTS_INVALID_SUBDIRS) /\ v <> PNone)
  | Raised _ => True
  end.

(** The game recorded and valid, the local data directory present but
    empty. *)
Definition recorded_and_local_tree : node :=
  with_local_dir (project_with "\game" [("game", Dir eight_dirs)]).

(** ** [main] *)

(** What [main] itself prints, by the lines of its branches. *)
Inductive report : Type :=
| RFinalStatus (s : status)        (* line 393 *)
| RNewlyCreated                    (* lines 395-396 *)
| RValid (v : pyval)               (* line 399 *)
| RMissingSourcePath               (* lines 401-402 *)
| RInvalidSubdirs (v : pyval)      (* lines 404-405 *)
| RNotADirectory (v : pyval)       (* lines 407-408 *)
| RNoPathFromUser                  (* lines 410-411 *)
| RFileOperation                   (* lines 413-414 *)
| RCreateOrRead                    (* lines 416-417 *)
| RUnexpected                      (* line 419 *)
| RProceeding (v : pyval)          (* line 423 *)
| RCannotProceed.                  (* line 427 *)

(** A console line of a run of [main]: printed by the resolver or by
    [main]. *)
Inductive console : Type :=
| FromResolver (e : event)
| FromMain (r : report).

Record main_world : Type := {
  m_fs : node;
  m_out : list console;
  m_stdin : list string
}.

(** Python's truth value of the returned path. *)
Definition truthy (v : pyval) : bool :=
  match v with
  | PNone => false
  | PStr s => negb (PathStr.is_empty s)
  | PPath _ => true
  end.

(** Lines 394-419, all branches but the first. *)
Definition status_report (s : status) (v : pyval) : list report :=
  match s with
  | CREATED => [RNewlyCreated]
  | EXISTS_VALID => [RValid v]
  | EXISTS_MISSING_SOURCEPATH => [RMissingSourcePath]
  | EXISTS_INVALID_SUBDIRS => [RInvalidSubdirs v]
  | ERROR_INVALID_SOURCEPATH_DIR => [RNotADirectory v]
  | USER_PROVIDED_PATH_INVALID => [RNoPathFromUser]
  | ERROR_FILE_OPERATION => [RFileOperation]
  | ERROR_CREATE => [RCreateOrRead]
  | ERROR_READ => [RCreateOrRead]
  | ERROR_CONFIG_UPDATE => [RUnexpected]
  end.

(** Lines 422-427. *)
Definition closing_report (s : status) (v : pyval) : list report :=
  match s with
  | EXISTS_VALID => if truthy v then [RProceeding v] else [RCannotProceed]
  | CREATED => []
  | _ => [RCannotProceed]
  end.

(** [main], in the directory [project_base_dir].  It calls itself after
    a creation, so the model takes fuel: [None] is fuel used up.
    [flts] gives the injected failures of each call of the resolver,
    [call] counting them. *)
Fixpoint main (fuel : nat) (flts : nat -> faults) (call : nat)
    (project_base_dir : string) (w : main_world)
  : option (outcome * main_world) :=
  match fuel with
  | O => None
  | S fuel' =>
      let '(o, w1) :=
        check_or_create_config (flts call) project_base_dir "project.json"
          {| w_fs := m_fs w; w_out := []; w_stdin := m_stdin w |} in
      let out1 := (m_out w ++ map FromResolver (w_out w1))%list in
      match o with
      | Raised e =>
          Some (Raised e,
                {| m_fs := w_fs w1; m_out := out1; m_stdin := w_stdin w1 |})
      | Returned s v =>
          let out2 :=
            (out1 ++ map FromMain (RFinalStatus s :: status_report s v))%list in
          let w2 := {| m_fs := w_fs w1; m_out := out2;
                       m_stdin := w_stdin w1 |} in
          let finish (w3 : main_world) :=
            Some (Returned s v,
                  {| m_fs := m_fs w3;
                     m_out := (m_out w3
                                 ++ map FromMain (closing_report s v))%list;
                     m_stdin := m_stdin w3 |}) in
          match s with
          | CREATED =>
              match main fuel' flts (S call) project_base_dir w2 with
              | None => None
              | Some (Raised e, w3) => Some (Raised e, w3)
              | Some (Returned _ _, w3) => finish w3
              end
          | _ => finish w2
          end
      end
  end.

(** One level of [main], the nested call being [again]. *)
Definition main_level (again : main_world -> option (outcome * main_world))
    (flt : faults) (project_base_dir : string) (w : main_world)
  : option (outcome * main_world) :=
  let '(o, w1) :=
    check_or_create_config flt project_base_dir "project.json"
      {| w_fs := m_fs w; w_out := []; w_stdin := m_stdin w |} in
  let out1 := (m_out w ++ map FromResolver (w_out w1))%list in
  match o with
  | Raised e =>
      Some (Raised e,
            {| m_fs := w_fs w1; m_out := out1; m_stdin := w_stdin w1 |})
  | Returned s v =>
      let out2 :=
        (out1 ++ map FromMain (RFinalStatus s :: status_report s v))%list in
      let w2 := {| m_fs := w_fs w1; m_out := out2;
                   m_stdin := w_stdin w1 |} in
      let finish (w3 : main_world) :=
        Some (Returned s v,
              {| m_fs := m_fs w3;
                 m_out := (m_out w3
                             ++ map FromMain (closing_report s v))%list;
                 m_stdin := m_stdin w3 |}) in
      match s with
      | CREATED =>
          match again w2 with
          | None => None
          | Some (Raised e, w3) => Some (Raised e, w3)
          | Some (Returned _ _, w3) => finish w3
          end
      | _ => finish w2
      end
  end.

(** A project directory without configuration file, next to a complete
    game. *)
Definition first_start : main_world :=
  {| m_fs := Dir [("proj", Dir []); ("game", Dir eight_dirs)];
     m_out := [];
     m_stdin := ["\game"; "3"] |}.

(** ** The source as the system shows it, symbolic links included *)

(** A source tree as [os.scandir] presents it.  A symbolic link
    appears as what it resolves to; the destination of a copy is always
    made of regular files and directories. *)
Inductive lnode : Type :=
| LFile (c : content)
| LDir (es : list (string * lnode))
| LLinkFile (c : content)               (* link to a regular file *)
| LLinkDir (es : list (string * lnode)) (* link to a directory *)
| LDangling.                            (* link to nothing *)

Fixpoint lentry (es : list (string * lnode)) (name : string) : option lnode :=
  match es with
  | [] => None
  | (n, x) :: es' => if String.eqb name n then Some x else lentry es' name
  end.

(** What a path names when it is listed: the entries of a directory or
    of the directory a link resolves to. *)
Definition entries_of (x : lnode) : option (list (string * lnode)) :=
  match x with
  | LDir es => Some es
  | LLinkDir es => Some es
  | _ => None
  end.

(** [os.walk] below a directory, without [followlinks]: a link to a
    directory is listed among the directories and not entered; any other
    link is listed among the files. *)
Fixpoint walk_links (x : lnode) : list (list string) :=
  match x with
  | LDir es =>
      (fix files (es : list (string * lnode)) : list string :=
         match es with
         | [] => []
         | (n, y) :: es' =>
             match y with
             | LDir _ => files es'
             | LLinkDir _ => files es'
             | _ => n :: files es'
             end
         end) es
      ::
      (fix subdirs (es : list (string * lnode)) : list (list string) :=
         match es with
         | [] => []
         | (_, y) :: es' =>
             match y with
             | LDir _ => (walk_links y ++ subdirs es')%list
             | _ => subdirs es'
             end
         end) es
  | _ => []
  end.

(** [os.walk(top)]: the top itself is entered also when it is a link. *)
Definition walk_top (x : lnode) : list (list string) :=
  match entries_of x with
  | Some es => walk_links (LDir es)
  | None => []
  end.

(** Lines 214-217 on such a source. *)
Definition count_total_links (src : lnode) : nat :=
  fold_left (fun total_files files => total_files + length files)
    (walk_top src) 0.

(** [shutil.copytree] with [symlinks=False]: a link to a directory is
    copied as the directory it resolves to, a link to a file as that
    file; copying a dangling link raises in [copy2], before the counter
    is touched. *)
Fixpoint copytree_links (flt : list nat) (total_files : nat)
    (src : lnode) (dst : option node) (st : copy_state)
  : option node * copy_state :=
  let body (es : list (string * lnode)) :=
    match dst with
    | Some (File _) => (dst, fail_state st)
    | _ =>
        let d0 := match dst with Some (Dir d) => d | _ => [] end in
        let '(d1, st1) :=
          (fix each (es : list (string * lnode)) (d : list (string * node))
               (st : copy_state) : list (string * node) * copy_state :=
             match es with
             | [] => (d, st)
             | (n, x) :: es' =>
                 match x with
                 | LFile c =>
                     let '(d', st') :=
                       copy_with_progress flt total_files c d n st in
                     each es' d' st'
                 | LLinkFile c =>
                     let '(d', st') :=
                       copy_with_progress flt total_files c d n st in
                     each es' d' st'
                 | LDangling => each es' d (copy_error st)
                 | LDir _ =>
                     let '(r, st') :=
                       copytree_links flt total_files x (FS.entry d n) st in
                     each es'
                       (match r with
                        | Some x' => FS.set_entry d n x'
                        | None => d
                        end) st'
                 | LLinkDir _ =>
                     let '(r, st') :=
                       copytree_links flt total_files x (FS.entry d n) st in
                     each es'
                       (match r with
                        | Some x' => FS.set_entry d n x'
                        | None => d
                        end) st'
                 end
             end) es d0 st in
        (Some (Dir d1), st1)
    end in
  match src with
  | LDir es => body es
  | LLinkDir es => body es
  | _ => (dst, fail_state st)
  end.

(** The single copies a complete copy attempts: one for each file and
    each link that is not to a directory, links to directories being
    entered. *)
Fixpoint copies_attempted (x : lnode) : nat :=
  let below (es : list (string * lnode)) :=
    (fix go (es : list (string * lnode)) : nat :=
       match es with
       | [] => 0
       | (_, y) :: es' =>
           match y with
           | LDir _ => copies_attempted y
           | LLinkDir _ => copies_attempted y
           | _ => 1
           end + go es'
       end) es in
  match x with
  | LDir es => below es
  | LLinkDir es => below es
  | _ => 0
  end.

(** No link to a directory at or below [x]. *)
Fixpoint link_free (x : lnode) : bool :=
  match x with
  | LDir es =>
      (fix each (es : list (string * lnode)) : bool :=
         match es with
         | [] => true
         | (_, y) :: es' => link_free y && each es'
         end) es
  | LLinkDir _ => false
  | _ => true
  end.

Definition copy_mode_links (es : list (string * lnode)) (sp dp : list string)
  : copy_mode :=
  match below sp dp with
  | None => Snapshot
  | Some [] => Refused
  | Some (x :: _) =>
      match lentry es x with
      | None => Snapshot
      | Some _ => RunsAway
      end
  end.

(** The call of lines 255-258 for a source that the system shows as
    [source] at the path [sp], the rest of the file system being [fs]:
    [shutil_copytree] with the source given rather than looked up. *)
Definition copy_call (flt : list nat) (total_files : nat) (fs : node)
    (source : lnode) (sp dp : list string) : node * copy_state :=
  match entries_of source with
  | Some es =>
      match FS.mkdirs fs dp with
      | None => (fs, fail_state copy_start)
      | Some fs1 =>
          match copy_mode_links es sp dp with
          | RunsAway => (fs1, fail_state copy_start)
          | Refused => (fs1, refused_state (copies_attempted source))
          | Snapshot =>
              let '(r, st) :=
                copytree_links flt total_files source (FS.lookup fs1 dp)
                  copy_start in
              match r with
              | Some x =>
                  match FS.put fs1 dp x with
                  | Some fs2 => (fs2, st)
                  | None => (fs1, fail_state st)
                  end
              | None => (fs1, fail_state st)
              end
          end
      end
  | None => (fs, fail_state copy_start)
  end.

(** A tree without links, as such a source. *)
Fixpoint plain (x : node) : lnode :=
  match x with
  | File c => LFile c
  | Dir es =>
      LDir ((fix each (es : list (string * node)) : list (string * lnode) :=
               match es with
               | [] => []
               | (n, y) :: es' => (n, plain y) :: each es'
               end) es)
  end.

Definition plain_entries (es : list (string * node))
  : list (string * lnode) :=
  map (fun e => (fst e, plain (snd e))) es.

(** The loop over the entries inside [copytree_links], by name. *)
Fixpoint copy_entries_links (flt : list nat) (total_files : nat)
    (es : list (string * lnode)) (d : list (string * node)) (st : copy_state)
  : list (string * node) * copy_state :=
  match es with
  | [] => (d, st)
  | (n, x) :: es' =>
      match x with
      | LFile c =>
          let '(d', st') := copy_with_progress flt total_files c d n st in
          copy_entries_links flt total_files es' d' st'
      | LLinkFile c =>
          let '(d', st') := copy_with_progress flt total_files c d n st in
          copy_entries_links flt total_files es' d' st'
      | LDangling => copy_entries_links flt total_files es' d (copy_error st)
      | _ =>
          let '(r, st') := copytree_links flt total_files x (FS.entry d n) st in
          copy_entries_links flt total_files es'
            (match r with
             | Some x' => FS.set_entry d n x'
             | None => d
             end) st'
      end
  end.

Fixpoint walk_files_links (es : list (string * lnode)) : list string :=
  match es with
  | [] => []
  | (n, y) :: es' =>
      match y with
      | LDir _ => walk_files_links es'
      | LLinkDir _ => walk_files_links es'
      | _ => n :: walk_files_links es'
      end
  end.

Fixpoint walk_subdirs_links (es : list (string * lnode))
  : list (list string) :=
  match es with
  | [] => []
  | (_, y) :: es' =>
      match y with
      | LDir _ => (walk_links y ++ walk_subdirs_links es')%list
      | _ => walk_subdirs_links es'
      end
  end.


(** ** Names that [os.path.join] appends as they are *)

Fixpoint has_colon (s : string) : bool :=
  match s with
  | EmptyString => false
  | String c r => Ascii.eqb c (Ascii.ascii_of_nat 58) || has_colon r
  end.

(** A single name: not empty, no separator and no drive letter in it,
    and neither ["."] nor [".."].  For such a second argument
    [os.path.join] appends the name below the first; for an absolute or
    drive-qualified one it would drop the first argument, and ["."] and
    [".."] name the directory itself and its parent. *)
Definition plain_name (n : string) : bool :=
  match PathStr.split n with
  | [c] =>
      String.eqb c n && negb (has_colon n)
      && negb (String.eqb n ".") && negb (String.eqb n "..")
  | _ => false
  end.

(** * Properties *)

(** ** The directory tree under single writes *)

Section TreeFacts.

Lemma entry_set_same (es : list (string * node)) (name : string) (x : node) :
  FS.entry (FS.set_entry es name x) name = Some x.
Proof.
  induction es as [|[n y] es IH]; simpl.
  - now rewrite String.eqb_refl.
  - destruct (String.eqb name n) eqn:E; simpl; rewrite E; auto.
Qed.

Lemma entry_set_other (es : list (string * node)) (name other : string)
    (x : node) :
  other <> name ->
  FS.entry (FS.set_entry es name x) other = FS.entry es other.
Proof.
  intros Hne. induction es as [|[n y] es IH]; simpl.
  - apply String.eqb_neq in Hne. now rewrite Hne.
  - destruct (String.eqb name n) eqn:E; simpl.
    + apply String.eqb_eq in E. subst n.
      apply String.eqb_neq in Hne. now rewrite Hne.
    + now rewrite IH.
Qed.

Lemma lookup_put_same (p : list string) :
  forall (fs fs' x : node),
    FS.put fs p x = Some fs' -> FS.lookup fs' p = Some x.
Proof.
  induction p as [|name p IH]; intros fs fs' x H; simpl in *.
  - congruence.
  - destruct fs as [c|es]; [discriminate|].
    destruct p as [|name' p'].
    + injection H as <-. simpl. now rewrite entry_set_same.
    + destruct (FS.entry es name) as [sub|] eqn:E; [|discriminate].
      destruct (FS.put sub (name' :: p') x) as [sub'|] eqn:P; [|discriminate].
      injection H as <-. cbn [FS.lookup]. rewrite entry_set_same.
      now apply IH with (fs := sub).
Qed.

(** Below a regular file, or below nothing, there is no directory. *)
Lemma no_dir_below (c : content) (q : list string) :
  FS.is_dir_node (FS.lookup (File c) q) = false.
Proof. destruct q; reflexivity. Qed.

Lemma not_dir_cases (x : option node) :
  FS.is_dir_node x = false ->
  x = None \/ exists c, x = Some (File c).
Proof.
  destruct x as [[c|es]|]; simpl; intros H;
    [right; now exists c | discriminate | now left].
Qed.

(** Writing a regular file where no directory stands changes no
    answer of [isdir]. *)
Lemma put_file_keeps_dirs (p : list string) :
  forall (fs fs' : node) (c : content),
    FS.is_dir_node (FS.lookup fs p) = false ->
    FS.put fs p (File c) = Some fs' ->
    forall q, FS.is_dir_node (FS.lookup fs' q)
              = FS.is_dir_node (FS.lookup fs q).
Proof.
  induction p as [|name p IH]; intros fs fs' c Hnd H q.
  - simpl in *. injection H as <-.
    destruct fs as [c0|es]; [|discriminate].
    now rewrite !no_dir_below.
  - simpl in H. destruct fs as [c0|es]; [discriminate|].
    assert (Hes : exists es', fs' = Dir es'
              /\ forall m, m <> name -> FS.entry es' m = FS.entry es m).
    { destruct p as [|name' p'].
      - injection H as <-. eexists; split; [reflexivity|].
        intros m Hm. now apply entry_set_other.
      - destruct (FS.entry es name) as [sub|]; [|discriminate].
        destruct (FS.put sub (name' :: p') (File c)) as [sub'|];
          [|discriminate].
        injection H as <-. eexists; split; [reflexivity|].
        intros m Hm. now apply entry_set_other. }
    destruct q as [|m q].
    { destruct Hes as (es' & -> & _). reflexivity. }
    destruct (String.eqb m name) eqn:Em.
    + apply String.eqb_eq in Em. subst m. clear Hes.
      destruct p as [|name' p'].
      * injection H as <-. cbn [FS.lookup]. rewrite entry_set_same.
        simpl in Hnd. rewrite no_dir_below.
        destruct (FS.entry es name) as [[c1|es1]|] eqn:E.
        -- now rewrite no_dir_below.
        -- discriminate.
        -- reflexivity.
      * destruct (FS.entry es name) as [sub|] eqn:E; [|discriminate].
        destruct (FS.put sub (name' :: p') (File c)) as [sub'|] eqn:P;
          [|discriminate].
        injection H as <-. cbn [FS.lookup]. rewrite entry_set_same, E.
        apply (IH sub sub' c); [|assumption].
        cbn [FS.lookup] in Hnd. now rewrite E in Hnd.
    + apply String.eqb_neq in Em.
      destruct Hes as (es' & -> & Hent). cbn [FS.lookup].
      now rewrite (Hent m Em).
Qed.

Lemma write_file_keeps_isdir (fs fs' : node) (path : string) (c : content) :
  FS.write_file fs path c = Some fs' ->
  forall q, FS.isdir fs' q = FS.isdir fs q.
Proof.
  unfold FS.write_file, FS.isdir. intros H q.
  destruct (FS.lookup fs (PathStr.split path)) as [[c0|es]|] eqn:L;
    try discriminate;
    (destruct (PathStr.split path) as [|a p] eqn:Sp; [discriminate|]);
    eapply put_file_keeps_dirs; eauto; now rewrite L.
Qed.

Lemma write_file_read (fs fs' : node) (path : string) (c : content) :
  FS.write_file fs path c = Some fs' -> FS.read_file fs' path = Some c.
Proof.
  unfold FS.write_file, FS.read_file. intros H.
  assert (P : FS.put fs (PathStr.split path) (File c) = Some fs').
  { destruct (FS.lookup fs (PathStr.split path)) as [[c0|es]|];
      try discriminate;
      destruct (PathStr.split path); try discriminate; exact H. }
  now rewrite (lookup_put_same _ _ _ _ P).
Qed.

End TreeFacts.

(** ** The validator *)

Lemma check_dirs_exist_all (fs : node) (base_path : string)
    (required_dirs : list string) :
  FS.isdir fs base_path = true ->
  (forall n, In n required_dirs ->
             FS.isdir fs (PathStr.join base_path n) = true) ->
  check_dirs_exist fs base_path required_dirs = true.
Proof.
  intros Hbase Hall. unfold check_dirs_exist. rewrite Hbase. simpl.
  assert (E : filter (fun dir_name =>
                        negb (FS.isdir fs (PathStr.join base_path dir_name)))
                     required_dirs = []).
  { induction required_dirs as [|d ds IH]; simpl; [reflexivity|].
    rewrite (Hall d (or_introl eq_refl)). simpl.
    apply IH. intros n Hn. apply Hall. now right. }
  now rewrite E.
Qed.

(** C5.  A directory holding every name of the first-tested list
    (ORIGINAL, the spec's Primary) validates with that list reported as the
    match, whatever the second list is and whatever of it is present: the
    second list is not consulted and [found_usrdir] stays [False]. *)
Theorem primary_match_wins (fs : node) (P : string) (second : list string) :
  FS.isdir fs P = true ->
  (forall n, In n USRDIR_DIRS_ORIGINAL ->
             FS.isdir fs (PathStr.join P n) = true) ->
  let r := validate_against fs P USRDIR_DIRS_ORIGINAL second in
  r = (true, false)
  /\ validation_passed r = true
  /\ matched_list_name r = "USRDIR_DIRS_ORIGINAL".
Proof.
  intros Hdir Hall r. subst r. unfold validate_against.
  rewrite (check_dirs_exist_all _ _ _ Hdir Hall). simpl. auto.
Qed.

(** C9.  The two constants list the same names, so the check gives the
    same answer with either; the second check therefore never succeeds
    after the first failed, and the list reported on success is always
    the ORIGINAL one. *)
Theorem lists_coincide (fs : node) (root : string) :
  check_dirs_exist fs root USRDIR_DIRS
  = check_dirs_exist fs root USRDIR_DIRS_ORIGINAL
  /\ snd (validate_lists fs root) = false
  /\ validation_passed (validate_lists fs root)
     = check_dirs_exist fs root USRDIR_DIRS_ORIGINAL
  /\ matched_list_name (validate_lists fs root) = "USRDIR_DIRS_ORIGINAL".
Proof.
  assert (E : USRDIR_DIRS = USRDIR_DIRS_ORIGINAL) by reflexivity.
  unfold validate_lists, validate_against, validation_passed, matched_list_name.
  rewrite E. cbn [fst snd].
  destruct (check_dirs_exist fs root USRDIR_DIRS_ORIGINAL) eqn:C;
    cbn [negb]; rewrite ?C; auto.
Qed.

(** C4, as amended.  Resolving twice gives what resolving once gives,
    provided the marker directory does not itself hold a directory of the
    marker's name.  The resolution only reads the tree: it is a function
    of it and returns no new one. *)
Theorem resolve_idempotent (fs : node) (root : string) :
  FS.isdir fs (PathStr.join (PathStr.join root MARKER) MARKER) = false ->
  resolve_validation_root fs (resolve_validation_root fs root)
  = resolve_validation_root fs root.
Proof.
  intros Hnested. unfold resolve_validation_root.
  destruct (FS.isdir fs (PathStr.join root MARKER)) eqn:M.
  - now rewrite Hnested.
  - now rewrite M.
Qed.

(** C4 as stated fails: with [\game\USRDIR\USRDIR] present the second
    resolution descends once more. *)
Lemma resolve_not_idempotent :
  resolve_validation_root nested_marker_tree "\game" = "\game\USRDIR"
  /\ resolve_validation_root nested_marker_tree
       (resolve_validation_root nested_marker_tree "\game")
     = "\game\USRDIR\USRDIR"
  /\ resolve_validation_root nested_marker_tree
       (resolve_validation_root nested_marker_tree "\game")
     <> resolve_validation_root nested_marker_tree "\game".
Proof.
  repeat split; try reflexivity. vm_compute. discriminate.
Qed.

Lemma resolve_idempotent_witness :
  FS.isdir plain_game_tree
    (PathStr.join (PathStr.join "\game" MARKER) MARKER) = false
  /\ resolve_validation_root plain_game_tree
       (resolve_validation_root plain_game_tree "\game")
     = resolve_validation_root plain_game_tree "\game".
Proof.
  split; [reflexivity | apply (resolve_idempotent plain_game_tree "\game")].
  reflexivity.
Defined.

Lemma primary_match_wins_witness :
  FS.isdir full_game_tree "\game" = true
  /\ validate_against full_game_tree "\game" USRDIR_DIRS_ORIGINAL ["NOPE"]
     = (true, false).
Proof.
  split; [reflexivity|].
  apply (primary_match_wins full_game_tree "\game" ["NOPE"]).
  - reflexivity.
  - intros n Hn. simpl in Hn.
    repeat (destruct Hn as [<-|Hn]; [reflexivity|]). contradiction.
Defined.

(** ** Saving the configuration *)

Lemma dict_lookup_set_same (m : list (string * json)) (k : string) (v : json) :
  dict_lookup (dict_set m k v) k = Some v.
Proof.
  induction m as [|[k' v'] m IH]; simpl.
  - now rewrite String.eqb_refl.
  - destruct (String.eqb k k') eqn:E; simpl.
    + now rewrite String.eqb_refl.
    + now rewrite E.
Qed.

Lemma set_then_read (config_data config_data' v : json) :
  set_directory_entry config_data "TSGPS2SourcePath" v = Some config_data' ->
  read_source_path config_data' = Some v.
Proof.
  unfold set_directory_entry, read_source_path, py_get. intros H.
  destruct config_data as [| | | | |m|]; try discriminate.
  destruct (match dict_lookup m "RemakeEngine" with
            | Some r => r | None => JObj [] end) as [| | | | |rm|];
    try discriminate.
  destruct (match dict_lookup rm "Directories" with
            | Some d => d | None => JObj [] end) as [| | | | |dm|];
    try discriminate.
  injection H as <-. now rewrite !dict_lookup_set_same.
Qed.

Lemma dump_keeps_isdir (fault : bool) (fs fs' : node) (path : string)
    (data : json) (ok : bool) :
  dump_to_file fault fs path data = (fs', ok) ->
  forall q, FS.isdir fs' q = FS.isdir fs q.
Proof.
  unfold dump_to_file. intros H q.
  destruct fault; [now injection H as <- _|].
  destruct (serialisable data).
  - destruct (FS.write_file fs path (Json data)) eqn:W; injection H as <- _;
      [now apply (write_file_keeps_isdir _ _ _ _ W) | reflexivity].
  - destruct (FS.write_file fs path Unparseable) eqn:W; injection H as <- _;
      [now apply (write_file_keeps_isdir _ _ _ _ W) | reflexivity].
Qed.

Lemma save_keeps_isdir (fault : bool) (path : string) (config_data : json)
    (key : string) (v : pyval) (fs : node) :
  forall q,
    FS.isdir (snd (fst (save_config fault path config_data key v fs))) q
    = FS.isdir fs q.
Proof.
  intros q. unfold save_config.
  destruct (set_directory_entry config_data key (to_json v)); [|reflexivity].
  destruct (dump_to_file fault fs path j) as [fs' ok] eqn:D. simpl.
  now apply (dump_keeps_isdir _ _ _ _ _ _ D).
Qed.

(** A save that printed the success line left the document on disk. *)
Lemma save_success (fault : bool) (path : string) (config_data : json)
    (key : string) (v : pyval) (fs fs' : node) (config_data' : json) :
  save_config fault path config_data key v fs
  = (config_data', fs', [EvConfigUpdated]) ->
  set_directory_entry config_data key (to_json v) = Some config_data'
  /\ FS.read_file fs' path = Some (Json config_data').
Proof.
  unfold save_config, dump_to_file. intros H.
  destruct (set_directory_entry config_data key (to_json v)) as [cd|];
    [|discriminate].
  destruct fault; [discriminate|].
  destruct (serialisable cd).
  - destruct (FS.write_file fs path (Json cd)) eqn:W; [|discriminate].
    injection H as <- <-. split; [reflexivity|].
    now apply write_file_read with (fs := fs).
  - destruct (FS.write_file fs path Unparseable); discriminate.
Qed.

Lemma check_dirs_exist_ext (fs fs' : node) (base : string) (req : list string) :
  (forall q, FS.isdir fs' q = FS.isdir fs q) ->
  check_dirs_exist fs' base req = check_dirs_exist fs base req.
Proof.
  intros E. unfold check_dirs_exist. rewrite E.
  destruct (FS.isdir fs base); simpl; [|reflexivity].
  assert (F : filter (fun d => negb (FS.isdir fs' (PathStr.join base d))) req
              = filter (fun d => negb (FS.isdir fs (PathStr.join base d))) req).
  { apply filter_ext. intros d. now rewrite E. }
  now rewrite F.
Qed.

Lemma validate_lists_ext (fs fs' : node) (p : string) :
  (forall q, FS.isdir fs' q = FS.isdir fs q) ->
  validate_lists fs' p = validate_lists fs p.
Proof.
  intros E. unfold validate_lists, validate_against.
  now rewrite !(check_dirs_exist_ext fs fs' _ _ E).
Qed.

(** ** The step after the path decision *)

Lemma revalidate_verdict (flt : faults) (config_file_path : string)
    (config_data : json) (path_from_config effective_source_path : string)
    (choice : option string) (fs : node) (out : list event)
    (stdin : list string) :
  fst (revalidate flt config_file_path config_data path_from_config
         effective_source_path choice fs out stdin)
  = verdict fs path_from_config effective_source_path choice.
Proof.
  unfold revalidate, verdict.
  pose proof (save_keeps_isdir (f_save_effective flt) config_file_path
                config_data "TSGPS2SourcePath" (PStr effective_source_path) fs)
    as K.
  destruct (save_config (f_save_effective flt) config_file_path config_data
              "TSGPS2SourcePath" (PStr effective_source_path) fs)
    as [[cd1 fs1] evs1]. simpl in K.
  rewrite (K (PathStr.join effective_source_path MARKER)).
  rewrite (validate_lists_ext fs fs1 _ K).
  destruct (FS.isdir fs (PathStr.join effective_source_path MARKER));
    cbn [fspath];
    match goal with
    | |- context [validation_passed ?r] => destruct (validation_passed r)
    end;
    try match goal with
      | |- context [save_config ?a ?b ?c ?d ?e ?f] =>
          destruct (save_config a b c d e f) as [[? ?] ?]
      end;
    try reflexivity.
  destruct (negb (String.eqb effective_source_path path_from_config));
    [destruct choice|]; reflexivity.
Qed.

(** C1, the failing run.  The recorded path [\game] holds the marker and
    the marker holds all eight directories; the operator keeps the files
    in place.  The call returns [EXISTS_VALID] with the [Path] of the
    marker, but [json.dump] refuses that [Path]: the warning is printed and
    the file, already truncated, no longer parses; the resolved root is
    not in it. *)
Theorem marker_root_not_persisted :
  let r := run no_faults marker_valid_tree ["3"] in
  fst r = Returned EXISTS_VALID (PPath "\game\USRDIR")
  /\ config_on_disk (snd r) = Some Unparseable
  /\ w_out (snd r)
     = [EvPromptChoice; EvUsingOriginal; EvConfigUpdated; EvFoundUSRDIR;
        EvValidationPassed "USRDIR_DIRS_ORIGINAL";
        EvErrorUpdating; EvWarnNotSaved].
Proof. vm_compute. repeat split. Qed.

(** C2 as stated fails: the operator supplies [\game], whose marker lacks
    required directories.  The root checked and returned is
    [\game\USRDIR]; the path on disk is [\game]. *)
Lemma checked_root_not_the_saved_path :
  let r := run no_faults marker_invalid_tree ["\game"; "3"] in
  fst r = Returned EXISTS_INVALID_SUBDIRS (PPath "\game\USRDIR")
  /\ (exists j, config_on_disk (snd r) = Some (Json j)
                /\ read_source_path j = Some (JStr "\game"))
  /\ JStr "\game" <> JStr "\game\USRDIR".
Proof.
  vm_compute. split; [reflexivity|]. split; [|discriminate].
  eexists. split; reflexivity.
Qed.


Lemma verdict_ends_by_validation (fs : node) (pfc eff : string)
    (choice : option string) :
  ends_by_validation (verdict fs pfc eff choice).
Proof.
  unfold verdict.
  destruct (FS.isdir fs (PathStr.join eff MARKER)); cbn [fspath];
    match goal with
    | |- context [validation_passed ?r] => destruct (validation_passed r)
    end; simpl; auto.
  destruct (negb (String.eqb eff pfc)); [destruct choice|]; simpl; auto.
Qed.



Lemma append_longer (a : string) (c : ascii) (r : string) :
  a ++ String c r <> a.
Proof.
  induction a as [|x a IH]; cbn [String.append]; [discriminate|].
  intros H. injection H as H. exact (IH H).
Qed.

(** The marker directory is never the directory it lies in. *)
Lemma join_marker_differs (a : string) : PathStr.join a MARKER <> a.
Proof.
  assert (E : forall b x, PathStr.last_char (String x b) <> None).
  { induction b as [|y b IH]; intros x; [discriminate|].
    change (PathStr.last_char (String x (String y b)))
      with (PathStr.last_char (String y b)). apply IH. }
  unfold PathStr.join. destruct a as [|x b]; [discriminate|].
  destruct (PathStr.last_char (String x b)) as [c|] eqn:L.
  - destruct (PathStr.is_sep c); apply append_longer.
  - now destruct (E b x).
Qed.

(** C2, as amended.  When the subdirectory check fails at the resolved
    root, and the run either went through the choice loop, or kept the
    confirmed path, or found the marker, the call returns
    [EXISTS_INVALID_SUBDIRS] with the root that was checked (the marker
    directory when present, else the effective path), whether or not the
    save made right after the path decision went through; and when that
    save did go through, the file holds the document whose
    [TSGPS2SourcePath] is the effective path, which is the checked root
    when there is no marker and differs from it when there is one. *)
Theorem invalid_subdirs_reported (flt : faults) (config_file_path : string)
    (config_data : json) (path_from_config effective_source_path : string)
    (choice : option string) (fs : node) (out : list event)
    (stdin : list string) :
  let saved :=
    save_config (f_save_effective flt) config_file_path config_data
      "TSGPS2SourcePath" (PStr effective_source_path) fs in
  let r := revalidate flt config_file_path config_data path_from_config
             effective_source_path choice fs out stdin in
  let marker := FS.isdir fs (PathStr.join effective_source_path MARKER) in
  let checked := resolve_validation_root fs effective_source_path in
  validation_passed (validate_lists fs checked) = false ->
  (choice <> None \/ effective_source_path = path_from_config
   \/ marker = true) ->
  fst r = Returned EXISTS_INVALID_SUBDIRS
            (if marker then PPath checked else PStr checked)
  /\ (snd saved = [EvConfigUpdated] ->
      FS.read_file (w_fs (snd r)) config_file_path
      = Some (Json (fst (fst saved)))
      /\ read_source_path (fst (fst saved))
         = Some (JStr effective_source_path))
  /\ (if marker
      then checked = PathStr.join effective_source_path MARKER
           /\ checked <> effective_source_path
      else checked = effective_source_path).
Proof.
  intros saved r marker checked Hinv Hpath.
  assert (Hfst : fst r = Returned EXISTS_INVALID_SUBDIRS
                           (if marker then PPath checked else PStr checked)).
  { subst r checked. rewrite revalidate_verdict. unfold verdict.
    unfold resolve_validation_root in *. fold marker in Hinv |- *.
    destruct marker eqn:M; cbn [fspath]; rewrite Hinv; [reflexivity|].
    destruct Hpath as [Hc | [He | Hm]]; [| |discriminate].
    - destruct choice; [|contradiction].
      now destruct (negb (String.eqb effective_source_path path_from_config)).
    - subst path_from_config. now rewrite String.eqb_refl. }
  split; [exact Hfst|]. clear Hfst Hpath. split.
  - intros Hsaved.
    subst r saved marker checked. unfold revalidate, resolve_validation_root in *.
    pose proof (save_keeps_isdir (f_save_effective flt) config_file_path
                  config_data "TSGPS2SourcePath"
                  (PStr effective_source_path) fs) as K.
    destruct (save_config (f_save_effective flt) config_file_path config_data
                "TSGPS2SourcePath" (PStr effective_source_path) fs)
      as [[cd1 fs1] evs1] eqn:S.
    cbn [fst snd] in *. subst evs1.
    destruct (save_success _ _ _ _ _ _ _ _ S) as [Hset Hread].
    split; [|now apply set_then_read with (config_data := config_data)].
    rewrite (K (PathStr.join effective_source_path MARKER)).
    rewrite (validate_lists_ext fs fs1 _ K).
    destruct (FS.isdir fs (PathStr.join effective_source_path MARKER));
      cbn [fspath]; rewrite Hinv; [exact Hread|].
    destruct (negb _); [destruct choice|]; exact Hread.
  - subst checked marker. unfold resolve_validation_root.
    destruct (FS.isdir fs (PathStr.join effective_source_path MARKER));
      [|reflexivity].
    split; [reflexivity | apply join_marker_differs].
Qed.

(** With the marker present, its directory incomplete and every save
    failing, the status and the checked root are returned all the
    same. *)
Lemma invalid_subdirs_reported_witness :
  validation_passed
    (validate_lists marker_invalid_tree
       (resolve_validation_root marker_invalid_tree "\game")) = false
  /\ fst (revalidate saves_fail "\proj\project.json" (config_with "")
            "\game" "\game" (Some "3") marker_invalid_tree [] [])
     = Returned EXISTS_INVALID_SUBDIRS (PPath "\game\USRDIR").
Proof.
  split; [reflexivity|].
  destruct (invalid_subdirs_reported saves_fail "\proj\project.json"
              (config_with "") "\game" "\game" (Some "3")
              marker_invalid_tree [] []) as [H _];
    [reflexivity | left; discriminate | exact H].
Defined.

(** With the local data directory there already, the choice loop is
    skipped and [choice] is never assigned; when the check then fails
    without a marker, the report of line 378 reads it and the call
    raises instead of returning. *)
Lemma unassigned_choice_is_read :
  fst (run no_faults (with_local_dir local_present_tree) ["\game"])
  = Raised UnboundLocalError.
Proof. reflexivity. Qed.

(** ** The transfer choice *)

(** C6.  Choice 2 with the local destination already present: the error
    is printed and the loop asks again, on the same tree; nothing was
    created, moved or deleted. *)
Theorem move_refused_when_destination_exists (flt : faults)
    (path_from_config local_data_path : string) (fs : node)
    (out : list event) (line : string) (rest : list string) :
  PathStr.strip line = "2" ->
  FS.exists_ fs local_data_path = true ->
  choice_loop flt path_from_config local_data_path fs out (line :: rest)
  = choice_loop flt path_from_config local_data_path fs
      (out ++ [EvPromptChoice; EvMoveDestExists])%list rest.
Proof.
  intros Hline Hex. cbn [choice_loop]. rewrite Hline, Hex. cbn.
  now rewrite <- app_assoc.
Qed.

Lemma move_refused_when_destination_exists_witness :
  FS.exists_ (with_local_dir local_present_tree)
    "\proj\Source\GameFiles\SimpGamePS2" = true
  /\ choice_loop no_faults "\game" "\proj\Source\GameFiles\SimpGamePS2"
       (with_local_dir local_present_tree) [] [" 2 "; "3"]
     = Chosen "\game" "3" (with_local_dir local_present_tree)
         [EvPromptChoice; EvMoveDestExists; EvPromptChoice; EvUsingOriginal]
         [].
Proof.
  split; [reflexivity|].
  rewrite (move_refused_when_destination_exists no_faults "\game"
             "\proj\Source\GameFiles\SimpGamePS2"
             (with_local_dir local_present_tree) [] " 2 " ["3"]);
    reflexivity.
Defined.

Lemma mkdirs_isdir (p : list string) :
  forall fs fs', FS.mkdirs fs p = Some fs' ->
                 FS.is_dir_node (FS.lookup fs' p) = true.
Proof.
  induction p as [|name p IH]; intros fs fs' H.
  - destruct fs; simpl in H; [discriminate|]. now injection H as <-.
  - destruct fs as [c|es]; simpl in H; [discriminate|].
    destruct (FS.mkdirs _ p) as [sub'|] eqn:M; [|discriminate].
    injection H as <-. cbn [FS.lookup]. rewrite entry_set_same.
    now apply IH in M.
Qed.

(** C10.  Choice 1 on a source in which the walk counts no file: the
    destination directory is made, no progress line is written, the
    effective path is the local data path, and the call goes on to the
    step after the path decision. *)
Theorem empty_source_copy (flt : faults)
    (config_file_path local_data_path : string) (config_data : json)
    (path_from_config : string) (fs fs' : node) (out : list event)
    (line : string) (rest : list string) :
  FS.exists_ fs local_data_path = false ->
  PathStr.strip line = "1" ->
  match node_at fs path_from_config with
  | Some src => count_total_files src
  | None => 0
  end = 0 ->
  FS.mkdirs fs (PathStr.split local_data_path) = Some fs' ->
  choice_loop flt path_from_config local_data_path fs out (line :: rest)
  = Chosen local_data_path "1" fs'
      (out ++ [EvPromptChoice; EvNothingToCopy])%list rest
  /\ FS.isdir fs' local_data_path = true
  /\ handle_source_path flt config_file_path local_data_path config_data
       path_from_config fs out (line :: rest)
     = revalidate flt config_file_path config_data path_from_config
         local_data_path (Some "1") fs'
         (out ++ [EvPromptChoice; EvNothingToCopy])%list rest.
Proof.
  intros Hex Hline Hcount Hmk.
  assert (L : choice_loop flt path_from_config local_data_path fs out
                (line :: rest)
              = Chosen local_data_path "1" fs'
                  (out ++ [EvPromptChoice; EvNothingToCopy])%list rest).
  { cbn [choice_loop]. rewrite Hline. cbn [String.eqb Ascii.eqb Bool.eqb].
    rewrite Hcount. cbn [Nat.eqb]. rewrite Hmk. now rewrite <- app_assoc. }
  split; [exact L|]. split.
  - unfold FS.isdir. now apply mkdirs_isdir with (fs := fs).
  - unfold handle_source_path. rewrite Hex. cbn [negb]. now rewrite L.
Qed.

Lemma empty_source_copy_witness :
  FS.exists_ empty_source_tree "\proj\Source\GameFiles\SimpGamePS2" = false
  /\ FS.mkdirs empty_source_tree
       (PathStr.split "\proj\Source\GameFiles\SimpGamePS2")
     = Some (with_local_dir empty_source_tree)
  /\ FS.isdir (with_local_dir empty_source_tree)
       "\proj\Source\GameFiles\SimpGamePS2" = true.
Proof.
  split; [reflexivity|]. split; [reflexivity|].
  destruct (empty_source_copy no_faults "\proj\project.json"
              "\proj\Source\GameFiles\SimpGamePS2" (config_with "\game")
              "\game" empty_source_tree (with_local_dir empty_source_tree)
              [] "1" []) as (_ & H & _);
    [reflexivity | reflexivity | reflexivity | reflexivity | exact H].
Defined.

(** ** Creation *)

(** C8.  With no file at the configuration path and the write going
    through, the call writes the default document (project path, empty
    source path, empty tools) and returns [CREATED] at once: no line of
    input is read, nothing else is printed. *)
Theorem fresh_config_created (flt : faults) (project_base_dir filename : string)
    (w : world) (fs' : node) :
  let config_file_path := PathStr.join project_base_dir filename in
  FS.exists_ (w_fs w) config_file_path = false ->
  f_create flt = false ->
  FS.write_file (w_fs w) config_file_path
    (Json (default_data project_base_dir)) = Some fs' ->
  check_or_create_config flt project_base_dir filename w
  = (Returned CREATED PNone,
     {| w_fs := fs'; w_out := (w_out w ++ [EvCreated])%list;
        w_stdin := w_stdin w |})
  /\ FS.read_file fs' config_file_path
     = Some (Json (JObj
         [("RemakeEngine",
           JObj [("Config", JObj [("project_path", JStr project_base_dir)]);
                 ("Directories", JObj [("TSGPS2SourcePath", JStr "")]);
                 ("Tools", JObj [])])])).
Proof.
  intros cfg Hex Hflt Hw. split.
  - unfold check_or_create_config. fold cfg. rewrite Hex. cbn [negb].
    unfold dump_to_file. rewrite Hflt.
    change (serialisable (default_data project_base_dir)) with true.
    cbn iota. now rewrite Hw.
  - now apply write_file_read with (fs := w_fs w).
Qed.

Lemma fresh_config_created_witness :
  FS.exists_ empty_project "\proj\project.json" = false
  /\ fst (check_or_create_config no_faults "\proj" "project.json"
            {| w_fs := empty_project; w_out := []; w_stdin := ["\game"] |})
     = Returned CREATED PNone.
Proof.
  split; [reflexivity|].
  destruct (fresh_config_created no_faults "\proj" "project.json"
              {| w_fs := empty_project; w_out := []; w_stdin := ["\game"] |}
              (Dir [("proj",
                     Dir [("project.json",
                           File (Json (default_data "\proj")))])]))
    as [H _]; [reflexivity | reflexivity | reflexivity |].
  now rewrite H.
Defined.

(** ** Copy progress *)

Section CopyProgress.

Variable flt : list nat.
Variable total_files : nat.

Lemma node_nested_ind (P : node -> Prop) :
  (forall c, P (File c)) ->
  (forall es, Forall (fun e => P (snd e)) es -> P (Dir es)) ->
  forall x, P x.
Proof.
  intros Hfile Hdir. fix IH 1. intros [c|es]; [apply Hfile|].
  apply Hdir. induction es as [|[n y] es IHes]; constructor.
  - apply IH.
  - exact IHes.
Qed.

Lemma copytree_dir (es : list (string * node)) (dst : option node)
    (st : copy_state) :
  copytree flt total_files (Dir es) dst st
  = match dst with
    | Some (File _) => (dst, fail_state st)
    | _ =>
        let '(d1, st1) :=
          copy_entries flt total_files es
            (match dst with Some (Dir d) => d | _ => [] end) st in
        (Some (Dir d1), st1)
    end.
Proof.
  assert (E : forall es d st,
             (fix each (es : list (string * node)) (d : list (string * node))
                  (st : copy_state) : list (string * node) * copy_state :=
                match es with
                | [] => (d, st)
                | (n, x) :: es' =>
                    match x with
                    | File c =>
                        let '(d', st') :=
                          copy_with_progress flt total_files c d n st in
                        each es' d' st'
                    | Dir _ =>
                        let '(r, st') :=
                          copytree flt total_files x (FS.entry d n) st in
                        each es'
                          (match r with
                           | Some x' => FS.set_entry d n x'
                           | None => d
                           end) st'
                    end
                end) es d st
             = copy_entries flt total_files es d st).
  { clear. induction es as [|[n x] es IH]; intros d st; [reflexivity|].
    cbn [copy_entries]. destruct x as [c|sub].
    - destruct (copy_with_progress flt total_files c d n st) as [d' st'].
      apply IH.
    - destruct (copytree flt total_files (Dir sub) (FS.entry d n) st)
        as [r st'].
      apply IH. }
  destruct dst as [[c|d]|]; cbn [copytree]; try reflexivity;
    now rewrite E.
Qed.

Lemma advances_refl (st : copy_state) : advances total_files st 0 st.
Proof.
  intros H. repeat split; auto.
  unfold progress_lines. simpl. now rewrite app_nil_r.
Qed.

Lemma advances_trans (st st1 st2 : copy_state) (n m : nat) :
  advances total_files st n st1 ->
  advances total_files st1 m st2 ->
  advances total_files st (n + m) st2.
Proof.
  intros A B H. destruct (B H) as (F1 & C1 & P1).
  destruct (A F1) as (F0 & C0 & P0).
  split; [exact F0|]. split; [lia|].
  rewrite P1, P0, C0. unfold progress_lines.
  rewrite seq_app, map_app, <- app_assoc.
  now replace (S (copied_files_count st) + n)
    with (S (copied_files_count st + n)) by lia.
Qed.

Lemma copy_with_progress_advances (c : content) (d : list (string * node))
    (name : string) (st : copy_state) :
  advances total_files st 1
    (snd (copy_with_progress flt total_files c d name st)).
Proof.
  unfold copy_with_progress.
  assert (Done : advances total_files st 1 (copy_done total_files st)).
  { intros H. simpl in H. repeat split; auto; simpl; lia. }
  assert (Err : advances total_files st 1 (copy_error st)).
  { intros H. discriminate H. }
  destruct (existsb (Nat.eqb (calls st)) flt); [exact Err|].
  destruct (FS.entry d name) as [[c0|sub]|]; try exact Done.
  destruct (FS.entry sub name) as [[c1|sub1]|]; simpl; auto.
Qed.

Lemma copytree_advances (src : node) :
  forall dst st,
    advances total_files st (count_files src)
      (snd (copytree flt total_files src dst st)).
Proof.
  induction src as [c|es IH] using node_nested_ind; intros dst st.
  - intros H. discriminate H.
  - rewrite copytree_dir.
    assert (L : forall d st,
               advances total_files st (count_files (Dir es))
                 (snd (copy_entries flt total_files es d st))).
    { clear dst st. induction es as [|[n x] es IHes]; intros d st.
      - apply advances_refl.
      - inversion IH as [|? ? Hx Hes]; subst. specialize (IHes Hes).
        cbn [copy_entries]. destruct x as [c|sub].
        + pose proof (copy_with_progress_advances c d n st) as A.
          destruct (copy_with_progress flt total_files c d n st)
            as [d' st'].
          change (count_files (Dir ((n, File c) :: es)))
            with (1 + count_files (Dir es)).
          eapply advances_trans; [exact A | apply IHes].
        + pose proof (Hx (FS.entry d n) st) as A. cbn [snd] in A.
          destruct (copytree flt total_files (Dir sub) (FS.entry d n) st)
            as [r st'].
          change (count_files (Dir ((n, Dir sub) :: es)))
            with (count_files (Dir sub) + count_files (Dir es)).
          eapply advances_trans; [exact A | apply IHes]. }
    destruct dst as [[c|d]|].
    + intros H. discriminate H.
    + specialize (L d st).
      now destruct (copy_entries flt total_files es d st).
    + specialize (L [] st).
      now destruct (copy_entries flt total_files es [] st).
Qed.

End CopyProgress.

Section WalkCount.

Lemma walk_dir (es : list (string * node)) :
  walk (Dir es) = walk_files es :: walk_subdirs es.
Proof. reflexivity. Qed.

Lemma add_files_shift (l : list (list string)) :
  forall a, fold_left add_files l a = a + fold_left add_files l 0.
Proof.
  induction l as [|f l IH]; intros a; simpl; [lia|].
  rewrite (IH (add_files a f)), (IH (add_files 0 f)).
  unfold add_files. lia.
Qed.

Lemma count_total_files_eq (x : node) :
  count_total_files x = count_files x.
Proof.
  unfold count_total_files. fold add_files.
  induction x as [c|es IH] using node_nested_ind; [reflexivity|].
  rewrite walk_dir. cbn [fold_left]. rewrite add_files_shift.
  unfold add_files at 1. cbn [Nat.add].
  induction es as [|[n [c|sub]] es IHes].
  - reflexivity.
  - inversion IH as [|? ? _ Hes]; subst. specialize (IHes Hes).
    cbn [walk_files walk_subdirs length].
    change (count_files (Dir ((n, File c) :: es)))
      with (1 + count_files (Dir es)).
    lia.
  - inversion IH as [|? ? Hsub Hes]; subst. specialize (IHes Hes).
    cbn [snd] in Hsub. cbn [walk_files walk_subdirs].
    change (count_files (Dir ((n, Dir sub) :: es)))
      with (count_files (Dir sub) + count_files (Dir es)).
    rewrite fold_left_app, add_files_shift, Hsub. lia.
Qed.

End WalkCount.

Lemma refused_advances (total_files : nat) (s : node) :
  advances total_files copy_start (count_files s)
    (refused_state (count_total_files s)).
Proof.
  intros H. cbn in H. apply negb_false_iff, Nat.eqb_eq in H.
  rewrite count_total_files_eq in H. rewrite H.
  repeat split.
Qed.

Lemma shutil_copytree_advances (flt : list nat) (total_files : nat)
    (fs : node) (src dst : string) (s : node) :
  node_at fs src = Some s ->
  advances total_files copy_start (count_files s)
    (snd (shutil_copytree flt total_files fs src dst)).
Proof.
  intros Hsrc. unfold shutil_copytree. unfold node_at in Hsrc. rewrite Hsrc.
  destruct s as [c|es]; [intros H; discriminate H|].
  destruct (FS.mkdirs fs (PathStr.split dst)) as [fs1|];
    [|intros H; discriminate H].
  destruct (copy_mode_of es _ _);
    [|apply refused_advances|intros H; discriminate H].
  pose proof (copytree_advances flt total_files (Dir es)
                (FS.lookup fs1 (PathStr.split dst)) copy_start) as A.
  destruct (copytree flt total_files (Dir es) _ copy_start) as [x st].
  cbn [snd] in A.
  destruct x as [x|]; [|intros H; discriminate H].
  destruct (FS.put fs1 (PathStr.split dst) x);
    [exact A | intros H; discriminate H].
Qed.

(** The same seen from the choice loop: choice 1 on a source with at
    least one file, ending in a choice made, printed the prompt, the
    progress lines 1 to the total, and the success line. *)
Lemma copy_choice_reports_progress (flt : faults)
    (path_from_config local_data_path : string) (fs : node)
    (out : list event) (line : string) (rest : list string) (s : node)
    (eff c : string) (fs' : node) (out' : list event) (rest' : list string) :
  PathStr.strip line = "1" ->
  node_at fs path_from_config = Some s ->
  1 <= count_total_files s ->
  choice_loop flt path_from_config local_data_path fs out (line :: rest)
  = Chosen eff c fs' out' rest' ->
  eff = local_data_path
  /\ out' = (out ++ [EvPromptChoice]
               ++ progress_lines (count_total_files s) 1 (count_total_files s)
               ++ [EvCopySuccessful])%list.
Proof.
  intros Hline Hsrc Hpos H. cbn [choice_loop] in H.
  rewrite Hline in H. cbn [String.eqb Ascii.eqb Bool.eqb] in H.
  rewrite Hsrc in H.
  destruct (Nat.eqb (count_total_files s) 0) eqn:Z;
    [apply Nat.eqb_eq in Z; lia|].
  pose proof (shutil_copytree_advances (f_copy flt) (count_total_files s) fs
                path_from_config local_data_path s Hsrc) as A.
  destruct (shutil_copytree (f_copy flt) (count_total_files s) fs
              path_from_config local_data_path) as [fs1 st].
  cbn [snd] in A. destruct (failed st) eqn:F; [discriminate|].
  destruct (A F) as (_ & _ & P). injection H as <- _ _ <- _.
  split; [reflexivity|]. rewrite P. simpl.
  rewrite <- (count_total_files_eq s). now rewrite <- !app_assoc.
Qed.

(** ** Shapes: what the saves cannot change *)

Section Shapes.

Lemma erase_dir (es : list (string * node)) :
  erase (Dir es) = Dir (erase_entries es).
Proof.
  cbn [erase]. f_equal. unfold erase_entries.
  induction es as [|[n y] es IH]; [reflexivity|].
  cbn [map fst snd]. now rewrite <- IH.
Qed.

Lemma erase_idem (x : node) : erase (erase x) = erase x.
Proof.
  induction x as [c|es IH] using node_nested_ind; [reflexivity|].
  rewrite !erase_dir. f_equal. unfold erase_entries.
  induction es as [|[n y] es IHes]; [reflexivity|].
  inversion IH as [|? ? Hy Hes]; subst. cbn [map fst snd] in *.
  now rewrite Hy, (IHes Hes).
Qed.


























End Shapes.




(** * Further properties of the code *)

(** ** Path strings *)

Section PathFacts.

Lemma split_aux_sep (a : string) :
  forall (cur : string) (c : ascii) (b : string),
    PathStr.is_sep c = true ->
    PathStr.split_aux (a ++ String c b) cur
    = (PathStr.split_aux a cur ++ PathStr.split_aux b "")%list.
Proof.
  induction a as [|x a IH]; intros cur c b Hc.
  - cbn [String.append PathStr.split_aux]. rewrite Hc.
    now destruct (PathStr.is_empty cur).
  - cbn [String.append PathStr.split_aux].
    destruct (PathStr.is_sep x).
    + destruct (PathStr.is_empty cur); rewrite (IH "" c b Hc); reflexivity.
    + apply IH, Hc.
Qed.

Lemma last_char_snoc (a : string) (c : ascii) :
  PathStr.last_char a = Some c -> exists a0, a = a0 ++ String c "".
Proof.
  induction a as [|x a IH]; [discriminate|].
  cbn [PathStr.last_char]. destruct a as [|y a'].
  - intros H. injection H as ->. now exists "".
  - intros H. destruct (IH H) as [a0 E]. exists (String x a0).
    cbn [String.append]. now rewrite <- E.
Qed.

Lemma last_char_none (a : string) : PathStr.last_char a = None -> a = "".
Proof.
  induction a as [|x a IH]; [reflexivity|].
  cbn [PathStr.last_char]. destruct a as [|y a']; [discriminate|].
  intros H. specialize (IH H). discriminate.
Qed.

Lemma append_assoc (a b c : string) : (a ++ b) ++ c = a ++ (b ++ c).
Proof. induction a as [|x a IH]; cbn [String.append]; congruence. Qed.

(** The components of a joined path are those of the first path
    followed by those of the second. *)
Lemma split_join (a b : string) :
  PathStr.split (PathStr.join a b)
  = (PathStr.split a ++ PathStr.split b)%list.
Proof.
  unfold PathStr.join, PathStr.split.
  destruct (PathStr.last_char a) as [c|] eqn:L.
  - destruct (PathStr.is_sep c) eqn:S.
    + destruct (last_char_snoc a c L) as [a0 ->].
      rewrite append_assoc. cbn [String.append].
      rewrite (split_aux_sep a0 "" c b S), (split_aux_sep a0 "" c "" S).
      cbn [PathStr.split_aux PathStr.is_empty]. now rewrite app_nil_r.
    + now apply split_aux_sep.
  - now rewrite (last_char_none a L).
Qed.

Lemma required_names_plain (n : string) :
  In n USRDIR_DIRS_ORIGINAL -> PathStr.split n = [n].
Proof.
  intros H. cbn in H.
  repeat (destruct H as [<-|H]; [reflexivity|]). contradiction.
Qed.

End PathFacts.

(** ** The validator, characterised *)

Lemma filter_nil_iff {A : Type} (f : A -> bool) (l : list A) :
  filter f l = [] <-> forall x, In x l -> f x = false.
Proof.
  induction l as [|a l IH]; cbn [filter].
  - split; [intros _ x []|reflexivity].
  - destruct (f a) eqn:F.
    + split; [discriminate|]. intros H.
      rewrite (H a (or_introl eq_refl)) in F. discriminate.
    + rewrite IH. split.
      * intros H x [<-|Hx]; auto.
      * intros H x Hx. apply H. now right.
Qed.

Lemma check_dirs_exist_spec (fs : node) (base_path : string)
    (required_dirs : list string) :
  check_dirs_exist fs base_path required_dirs = true
  <-> FS.isdir fs base_path = true
      /\ forall n, In n required_dirs ->
                   FS.isdir fs (PathStr.join base_path n) = true.
Proof.
  unfold check_dirs_exist.
  destruct (FS.isdir fs base_path); cbn [negb].
  - destruct (filter _ required_dirs) as [|m ms] eqn:F.
    + split; [|reflexivity]. intros _. split; [reflexivity|].
      intros n Hn. apply filter_nil_iff with (x := n) in F; [|exact Hn].
      now apply negb_false_iff in F.
    + split; [discriminate|]. intros [_ H]. exfalso.
      assert (Hm : In m (filter
                (fun dir_name =>
                   negb (FS.isdir fs (PathStr.join base_path dir_name)))
                required_dirs)) by (rewrite F; now left).
      apply filter_In in Hm. destruct Hm as [Hin Hneg].
      rewrite (H m Hin) in Hneg. discriminate.
  - split; [discriminate | intros [H _]; discriminate].
Qed.

Lemma plain_name_split (n : string) :
  plain_name n = true -> PathStr.split n = [n].
Proof.
  unfold plain_name. destruct (PathStr.split n) as [|c [|c' l]];
    try discriminate.
  intros H. apply andb_true_iff in H. destruct H as [H _].
  apply andb_true_iff in H. destruct H as [H _].
  apply andb_true_iff in H. destruct H as [H _].
  apply String.eqb_eq in H. now rewrite H.
Qed.

(** Below a directory, a joined single name is looked up among the
    directory's entries. *)
Lemma isdir_join_plain (fs : node) (p n : string)
    (es : list (string * node)) :
  PathStr.split n = [n] ->
  node_at fs p = Some (Dir es) ->
  FS.isdir fs (PathStr.join p n) = FS.is_dir_node (FS.entry es n).
Proof.
  intros Hn Hp. unfold FS.isdir, node_at in *. rewrite split_join, Hn.
  revert fs Hp.
  induction (PathStr.split p) as [|a q IH]; intros fs Hp.
  - cbn in Hp. injection Hp as ->. cbn. now destruct (FS.entry es n).
  - cbn [app FS.lookup] in *. destruct fs as [c|es0]; [discriminate|].
    destruct (FS.entry es0 a); [now apply IH | discriminate].
Qed.

(** X1.  For required names that are single names, [check_dirs_exist]
    answers [True] exactly when the base path names a directory and each
    required name is an entry of that directory that is itself a
    directory; in particular a base path that is missing or a regular
    file gives [False], and an empty list of names asks only for the
    base. *)
Theorem check_dirs_exist_iff (fs : node) (base_path : string)
    (required_dirs : list string) :
  (forall n, In n required_dirs -> plain_name n = true) ->
  (check_dirs_exist fs base_path required_dirs = true
   <-> exists es,
         node_at fs base_path = Some (Dir es)
         /\ forall n, In n required_dirs ->
                      FS.is_dir_node (FS.entry es n) = true).
Proof.
  intros Hplain. rewrite check_dirs_exist_spec.
  unfold FS.isdir at 1. fold (node_at fs base_path). split.
  - intros [Hd H].
    destruct (node_at fs base_path) as [[c|es]|] eqn:Hp; try discriminate.
    exists es. split; [reflexivity|]. intros n Hn.
    rewrite <- (isdir_join_plain fs base_path n es
                  (plain_name_split n (Hplain n Hn)) Hp).
    now apply H.
  - intros (es & Hp & H). rewrite Hp. split; [reflexivity|].
    intros n Hn.
    rewrite (isdir_join_plain fs base_path n es
               (plain_name_split n (Hplain n Hn)) Hp).
    now apply H.
Qed.

Lemma check_dirs_exist_iff_witness :
  plain_name "ENVS" = true
  /\ check_dirs_exist two_files_tree "\game" ["ENVS"] = true
  /\ check_dirs_exist two_files_tree "\game" ["a.bin"] = false.
Proof.
  split; [reflexivity|]. split.
  - apply (check_dirs_exist_iff two_files_tree "\game" ["ENVS"]).
    + intros n [<-|[]]. reflexivity.
    + eexists. split; [reflexivity|].
      intros n [<-|[]]. reflexivity.
  - reflexivity.
Defined.

Lemma validate_against_spec (fs : node) (p : string)
    (first second : list string) :
  validation_passed (validate_against fs p first second) = true
  <-> FS.isdir fs p = true
      /\ ((forall n, In n first -> FS.isdir fs (PathStr.join p n) = true)
          \/ (forall n, In n second ->
                        FS.isdir fs (PathStr.join p n) = true)).
Proof.
  unfold validation_passed, validate_against. cbn [fst snd].
  pose proof (check_dirs_exist_spec fs p first) as F.
  pose proof (check_dirs_exist_spec fs p second) as S.
  destruct (check_dirs_exist fs p first); cbn [negb].
  - split; [|reflexivity]. intros _.
    destruct (proj1 F eq_refl) as [Hd Ha]. auto.
  - rewrite orb_false_r. rewrite S. split.
    + intros [Hd Ha]. auto.
    + intros [Hd [Ha|Ha]]; [|auto].
      assert (E : false = true) by (apply F; auto). discriminate.
Qed.

(** X2.  Validation against two lists passes exactly when the path is a
    directory holding all names of the first list or all names of the
    second; names found from one list never make up for names missing
    from the other. *)
Theorem validation_never_merges (fs : node) (p : string)
    (first second : list string) :
  validation_passed (validate_against fs p first second) = true
  <-> FS.isdir fs p = true
      /\ ((forall n, In n first -> FS.isdir fs (PathStr.join p n) = true)
          \/ (forall n, In n second ->
                        FS.isdir fs (PathStr.join p n) = true)).
Proof. apply validate_against_spec. Qed.

(** X3.  With the module's two lists, a path validates exactly when the
    node it names is a directory whose entries ENVS, FMV, GRAPHICS,
    GUIMENU, IRX, MISC, SOUNDS and SUBTITLE are all directories. *)
Theorem validate_lists_structural (fs : node) (p : string) :
  validation_passed (validate_lists fs p) = true
  <-> exists es, node_at fs p = Some (Dir es)
                 /\ forall n, In n USRDIR_DIRS_ORIGINAL ->
                              FS.is_dir_node (FS.entry es n) = true.
Proof.
  unfold validate_lists. rewrite validate_against_spec.
  change USRDIR_DIRS with USRDIR_DIRS_ORIGINAL.
  assert (Sub : forall es n, In n USRDIR_DIRS_ORIGINAL ->
            node_at fs p = Some (Dir es) ->
            FS.isdir fs (PathStr.join p n) = FS.is_dir_node (FS.entry es n)).
  { intros es n Hn Hp. unfold FS.isdir, node_at in *.
    rewrite split_join, (required_names_plain n Hn).
    clear Hn. revert fs Hp.
    induction (PathStr.split p) as [|a q IH]; intros fs Hp.
    - cbn in Hp. injection Hp as ->. cbn.
      now destruct (FS.entry es n).
    - cbn [app FS.lookup] in *. destruct fs as [c|es0]; [discriminate|].
      destruct (FS.entry es0 a); [now apply IH | discriminate]. }
  unfold FS.isdir at 1. fold (node_at fs p). split.
  - intros [Hd H]. destruct (node_at fs p) as [[c|es]|] eqn:Hp;
      try discriminate.
    exists es. split; [reflexivity|]. intros n Hn.
    rewrite <- (Sub es n Hn eq_refl). destruct H as [H|H]; now apply H.
  - intros (es & Hp & H). rewrite Hp. split; [reflexivity|]. left.
    intros n Hn. rewrite (Sub es n Hn Hp). now apply H.
Qed.

(** ** The configuration document under the update block *)

Lemma dict_lookup_set_other (m : list (string * json)) (k k' : string)
    (v : json) :
  k' <> k -> dict_lookup (dict_set m k v) k' = dict_lookup m k'.
Proof.
  intros Hne. induction m as [|[k0 v0] m IH]; cbn [dict_set dict_lookup].
  - apply String.eqb_neq in Hne. now rewrite Hne.
  - destruct (String.eqb k k0) eqn:E; cbn [dict_lookup].
    + apply String.eqb_eq in E. subst k0.
      apply String.eqb_neq in Hne. now rewrite Hne.
    + now rewrite IH.
Qed.

Lemma dict_set_fresh (m : list (string * json)) (k : string) (v : json) :
  dict_lookup m k = None -> dict_set m k v = (m ++ [(k, v)])%list.
Proof.
  induction m as [|[k0 v0] m IH]; cbn [dict_set dict_lookup app];
    [reflexivity|].
  destruct (String.eqb k k0); [discriminate|].
  intros H. now rewrite IH.
Qed.

Lemma lookup_keys_obj (m : list (string * json)) (k : string)
    (ks : list string) :
  lookup_keys (JObj m) (k :: ks)
  = match dict_lookup m k with
    | Some v => lookup_keys v ks
    | None => None
    end.
Proof. reflexivity. Qed.

(** The three levels the update block walks, as it finds or makes them. *)
Lemma set_directory_entry_inv (config_data config_data' : json)
    (key : string) (v : json) :
  set_directory_entry config_data key v = Some config_data' ->
  exists m rm dm,
    config_data = JObj m
    /\ (dict_lookup m "RemakeEngine" = Some (JObj rm)
        \/ dict_lookup m "RemakeEngine" = None /\ rm = [])
    /\ (dict_lookup rm "Directories" = Some (JObj dm)
        \/ dict_lookup rm "Directories" = None /\ dm = [])
    /\ config_data'
       = JObj (dict_set m "RemakeEngine"
                 (JObj (dict_set rm "Directories"
                          (JObj (dict_set dm key v))))).
Proof.
  unfold set_directory_entry. intros H.
  destruct config_data as [| | | | |m|]; try discriminate.
  destruct (dict_lookup m "RemakeEngine") as [r|] eqn:R.
  - destruct r as [| | | | |rm|]; try discriminate.
    destruct (dict_lookup rm "Directories") as [d|] eqn:D.
    + destruct d as [| | | | |dm|]; try discriminate.
      injection H as <-. exists m, rm, dm. auto.
    + injection H as <-. exists m, rm, []. auto 6.
  - cbn [dict_lookup] in H. injection H as <-. exists m, [], []. auto 8.
Qed.

(** X4.  A successful update stores the value at
    RemakeEngine / Directories / key and changes nothing else: every
    chain of keys that neither leads to that entry nor passes through it
    finds what it found before. *)
Theorem update_touches_one_entry (config_data config_data' : json)
    (key : string) (v : json) :
  set_directory_entry config_data key v = Some config_data' ->
  lookup_keys config_data' (entry_keys key) = Some v
  /\ forall ks,
       PathStr.is_prefix ks (entry_keys key) = false ->
       PathStr.is_prefix (entry_keys key) ks = false ->
       lookup_keys config_data' ks = lookup_keys config_data ks.
Proof.
  intros H.
  destruct (set_directory_entry_inv _ _ _ _ H)
    as (m & rm & dm & -> & HR & HD & ->).
  split.
  - cbn [entry_keys lookup_keys]. now rewrite !dict_lookup_set_same.
  - intros ks P1 P2. unfold entry_keys in *.
    destruct ks as [|k1 ks]; [discriminate|].
    rewrite !lookup_keys_obj. cbn [PathStr.is_prefix] in P1, P2.
    destruct (String.eqb k1 "RemakeEngine") eqn:E1.
    2:{ apply String.eqb_neq in E1. now rewrite dict_lookup_set_other. }
    apply String.eqb_eq in E1. subst k1. rewrite dict_lookup_set_same.
    rewrite String.eqb_refl in P2. cbn [andb] in P1, P2.
    destruct ks as [|k2 ks]; [discriminate|].
    transitivity (lookup_keys (JObj rm) (k2 :: ks));
      [|destruct HR as [-> | [-> ->]]; reflexivity].
    rewrite !lookup_keys_obj. cbn [PathStr.is_prefix] in P1, P2.
    destruct (String.eqb k2 "Directories") eqn:E2.
    2:{ apply String.eqb_neq in E2. now rewrite dict_lookup_set_other. }
    apply String.eqb_eq in E2. subst k2. rewrite dict_lookup_set_same.
    rewrite String.eqb_refl in P2. cbn [andb] in P1, P2.
    destruct ks as [|k3 ks]; [discriminate|].
    transitivity (lookup_keys (JObj dm) (k3 :: ks));
      [|destruct HD as [-> | [-> ->]]; reflexivity].
    rewrite !lookup_keys_obj. cbn [PathStr.is_prefix] in P1, P2.
    destruct (String.eqb k3 key) eqn:E3.
    + apply String.eqb_eq in E3. subst k3.
      rewrite String.eqb_refl in P2. discriminate.
    + apply String.eqb_neq in E3. now rewrite dict_lookup_set_other.
Qed.

Lemma update_touches_one_entry_witness :
  set_directory_entry (JObj [("Other", JNum 1)]) "TSGPS2SourcePath"
    (JStr "\game")
  = Some (JObj [("Other", JNum 1);
                ("RemakeEngine",
                 JObj [("Directories",
                        JObj [("TSGPS2SourcePath", JStr "\game")])])])
  /\ lookup_keys
       (JObj [("Other", JNum 1);
              ("RemakeEngine",
               JObj [("Directories",
                      JObj [("TSGPS2SourcePath", JStr "\game")])])])
       (entry_keys "TSGPS2SourcePath")
     = Some (JStr "\game").
Proof.
  split; [reflexivity|].
  apply (update_touches_one_entry (JObj [("Other", JNum 1)]) _
           "TSGPS2SourcePath" (JStr "\game") eq_refl).
Defined.

(** X5.  Missing levels are made on demand: on a document without a
    RemakeEngine entry the update appends that entry, holding a
    Directories dict with the one key, after everything that was there. *)
Theorem update_creates_missing_levels (m : list (string * json))
    (key : string) (v : json) :
  dict_lookup m "RemakeEngine" = None ->
  set_directory_entry (JObj m) key v
  = Some (JObj (m ++ [("RemakeEngine",
                       JObj [("Directories", JObj [(key, v)])])])).
Proof.
  intros H. unfold set_directory_entry. rewrite H. cbn [dict_lookup dict_set].
  now rewrite (dict_set_fresh m _ _ H).
Qed.

Lemma update_creates_missing_levels_witness :
  set_directory_entry (JObj [("Tools", JObj [])]) "TSGPS2SourcePath"
    (JStr "\game")
  = Some (JObj [("Tools", JObj []);
                ("RemakeEngine",
                 JObj [("Directories",
                        JObj [("TSGPS2SourcePath", JStr "\game")])])]).
Proof.
  apply (update_creates_missing_levels [("Tools", JObj [])]
           "TSGPS2SourcePath" (JStr "\game")).
  reflexivity.
Defined.

(** X6.  Save, then load: when a save of a path under TSGPS2SourcePath
    printed its success line, the file holds the updated document, and
    the chained [get] of the next run reads that path from it. *)
Theorem saved_path_is_read_back (fault : bool) (config_file_path : string)
    (config_data config_data' : json) (p : string) (fs fs' : node) :
  save_config fault config_file_path config_data "TSGPS2SourcePath"
    (PStr p) fs
  = (config_data', fs', [EvConfigUpdated]) ->
  FS.read_file fs' config_file_path = Some (Json config_data')
  /\ read_source_path config_data' = Some (JStr p).
Proof.
  intros H. destruct (save_success _ _ _ _ _ _ _ _ H) as [Hset Hread].
  split; [exact Hread|].
  now apply set_then_read with (config_data := config_data).
Qed.

Lemma saved_path_is_read_back_witness :
  FS.read_file
    (snd (fst (save_config false "\proj\project.json" (config_with "")
                 "TSGPS2SourcePath" (PStr "\game") fresh_valid_tree)))
    "\proj\project.json"
  = Some (Json (config_with "\game")).
Proof.
  destruct (saved_path_is_read_back false "\proj\project.json"
              (config_with "") (config_with "\game") "\game"
              fresh_valid_tree
              (project_with "\game" [("game", Dir eight_dirs)]) eq_refl)
    as [H _].
  exact H.
Defined.

Lemma read_source_path_other_key (config_data config_data' : json)
    (key : string) (v : json) :
  key <> "TSGPS2SourcePath" ->
  set_directory_entry config_data key v = Some config_data' ->
  read_source_path config_data' = read_source_path config_data.
Proof.
  intros Hk H.
  destruct (set_directory_entry_inv _ _ _ _ H)
    as (m & rm & dm & -> & HR & HD & ->).
  unfold read_source_path, py_get. rewrite !dict_lookup_set_same.
  assert (Ne : "TSGPS2SourcePath" <> key) by congruence.
  rewrite (dict_lookup_set_other dm key "TSGPS2SourcePath" v Ne).
  destruct HR as [-> | [-> ->]]; destruct HD as [-> | [-> ->]];
    reflexivity.
Qed.

(** X7.  The prompt loop stores the operator's path under the key
    MainTSGPS2SourcePath only: whatever the loop ends with, the document
    it hands on still answers the chained [get] of TSGPS2SourcePath as
    it did before. *)
Theorem prompt_keeps_recorded_path (flt : faults) (config_file_path : string)
    (config_data : json) (fs : node) (stdin : list string) :
  forall out,
    match prompt_loop flt config_file_path config_data fs out stdin with
    | inl p => read_source_path (p_config p) = read_source_path config_data
    | inr _ => True
    end.
Proof.
  induction stdin as [|line rest IH]; intros out; [exact I|].
  cbn [prompt_loop].
  destruct (PathStr.is_empty (PathStr.strip line)); [apply IH|].
  destruct (FS.isdir fs (PathStr.strip line)); [|apply IH].
  unfold save_config.
  destruct (set_directory_entry config_data "MainTSGPS2SourcePath" _)
    as [cd|] eqn:S; [|reflexivity].
  destruct (dump_to_file _ fs config_file_path cd) as [fs' ok].
  cbn [p_config].
  apply (read_source_path_other_key config_data cd "MainTSGPS2SourcePath"
           _ ltac:(discriminate) S).
Qed.

(** X8.  The recorded path is trusted exactly when it is a string that
    is not blank, names an existing directory, and whose validation root
    (the marker directory if there is one) holds a full list. *)
Theorem recorded_path_trusted_iff (fs : node) (config_data : json)
    (p : string) :
  check_recorded_path fs config_data = Some p
  <-> read_source_path config_data = Some (JStr p)
      /\ PathStr.is_empty (PathStr.strip p) = false
      /\ FS.isdir fs p = true
      /\ validation_passed
           (validate_lists fs (resolve_validation_root fs p)) = true.
Proof.
  unfold check_recorded_path. split.
  - destruct (read_source_path config_data) as [[| | |s| | |]|];
      try discriminate.
    destruct (PathStr.is_empty s) eqn:E1; [discriminate|].
    destruct (PathStr.is_empty (PathStr.strip s)) eqn:E2; [discriminate|].
    cbn [negb andb].
    destruct (FS.isdir fs s) eqn:D; [|discriminate].
    destruct (validation_passed _) eqn:V; [|discriminate].
    intros H. injection H as <-. auto.
  - intros (-> & E2 & D & V).
    assert (E1 : PathStr.is_empty p = false).
    { destruct p; [discriminate E2 | reflexivity]. }
    now rewrite E1, E2, D, V.
Qed.

(** ** The two input loops *)

Lemma prompt_loop_accepts (flt : faults) (cfg : string) (cd : json)
    (fs : node) (stdin : list string) :
  forall out p,
    prompt_loop flt cfg cd fs out stdin = inl p ->
    exists skipped line,
      stdin = (skipped ++ line :: p_stdin p)%list
      /\ (forall l, In l skipped -> acceptable fs l = false)
      /\ p_path p = PathStr.strip line
      /\ acceptable fs line = true
      /\ p_fs p
         = snd (fst (save_config (f_save_provisional flt) cfg cd
                       "MainTSGPS2SourcePath" (PStr (PathStr.strip line)) fs)).
Proof.
  induction stdin as [|line rest IH]; intros out p H; [discriminate|].
  cbn [prompt_loop] in H. unfold acceptable.
  destruct (PathStr.is_empty (PathStr.strip line)) eqn:E.
  { destruct (IH _ _ H) as (sk & l & -> & Hsk & Hrest).
    exists (line :: sk), l. split; [reflexivity|]. split; [|exact Hrest].
    intros l' [<-|Hl]; [now rewrite E | now apply Hsk]. }
  destruct (FS.isdir fs (PathStr.strip line)) eqn:D.
  - destruct (save_config (f_save_provisional flt) cfg cd _ _ fs)
      as [[cd' fs'] evs] eqn:S.
    injection H as <-. exists [], line. cbn [p_stdin p_path p_fs app].
    rewrite E, D. repeat split; auto; [intros l [] | now rewrite S].
  - destruct (IH _ _ H) as (sk & l & -> & Hsk & Hrest).
    exists (line :: sk), l. split; [reflexivity|]. split; [|exact Hrest].
    intros l' [<-|Hl]; [now rewrite E, D | now apply Hsk].
Qed.

(** X9.  When the prompt loop ends with a path, that path is the first
    input line that, stripped, is not blank and names an existing
    directory; every line before it was refused, the lines after it are
    left unread, and the tree handed on has the directories it had. *)
Theorem prompt_returns_first_directory (flt : faults)
    (config_file_path : string) (config_data : json) (fs : node)
    (out : list event) (stdin : list string) (p : prompted) :
  prompt_loop flt config_file_path config_data fs out stdin = inl p ->
  (exists skipped line,
     stdin = (skipped ++ line :: p_stdin p)%list
     /\ (forall l, In l skipped -> acceptable fs l = false)
     /\ p_path p = PathStr.strip line)
  /\ PathStr.is_empty (p_path p) = false
  /\ FS.isdir fs (p_path p) = true
  /\ forall q, FS.isdir (p_fs p) q = FS.isdir fs q.
Proof.
  intros H.
  destruct (prompt_loop_accepts _ _ _ _ _ _ _ H)
    as (sk & line & Hs & Hsk & Hp & Ha & Hfs).
  unfold acceptable in Ha. apply andb_true_iff in Ha. destruct Ha as [A1 A2].
  apply negb_true_iff in A1. rewrite Hp.
  split; [exists sk, line; auto|]. split; [exact A1|]. split; [exact A2|].
  intros q. rewrite Hfs. apply save_keeps_isdir.
Qed.

Lemma prompt_returns_first_directory_witness :
  p_path sample_prompted = "\game"
  /\ p_stdin sample_prompted = ["3"]
  /\ FS.isdir fresh_valid_tree (p_path sample_prompted) = true.
Proof.
  split; [reflexivity|]. split; [reflexivity|].
  apply (prompt_returns_first_directory no_faults "\proj\project.json"
           (config_with "") fresh_valid_tree []
           [""; "\nowhere"; " \game "; "3"] sample_prompted).
  reflexivity.
Defined.

(** X10.  The prompt loop runs out of input (so that [input] raises
    [EOFError]) exactly when no line is acceptable; it never gives up on
    its own, however many lines it refuses. *)
Theorem prompt_ends_only_with_input (flt : faults) (config_file_path : string)
    (config_data : json) (fs : node) (out : list event)
    (stdin : list string) :
  (exists out', prompt_loop flt config_file_path config_data fs out stdin
                = inr out')
  <-> forall l, In l stdin -> acceptable fs l = false.
Proof.
  revert out. induction stdin as [|line rest IH]; intros out.
  - split; [intros _ l [] | intros _; eexists; reflexivity].
  - cbn [prompt_loop]. unfold acceptable in *.
    destruct (PathStr.is_empty (PathStr.strip line)) eqn:E.
    { rewrite IH. split.
      - intros H l [<-|Hl]; [now rewrite E | now apply H].
      - intros H l Hl. apply H. now right. }
    destruct (FS.isdir fs (PathStr.strip line)) eqn:D.
    + destruct (save_config _ _ _ _ _ _) as [[cd' fs'] evs]. split.
      * intros [o Ho]. discriminate Ho.
      * intros H. specialize (H line (or_introl eq_refl)).
        rewrite E, D in H. discriminate H.
    + rewrite IH. split.
      * intros H l [<-|Hl]; [now rewrite E, D | now apply H].
      * intros H l Hl. apply H. now right.
Qed.

(** X11.  However the choice loop ends with a choice, the choice is 1, 2
    or 3 as typed on the line that was accepted; after 1 or 2 the
    effective path is the local data path; after 3 it is the confirmed
    path and the tree is exactly as it was. *)
Theorem choice_decides_effective_path (flt : faults)
    (path_from_config local_data_path : string) (fs : node)
    (out : list event) (stdin : list string)
    (eff c : string) (fs' : node) (out' : list event) (rest' : list string) :
  choice_loop flt path_from_config local_data_path fs out stdin
  = Chosen eff c fs' out' rest' ->
  (exists skipped line,
     stdin = (skipped ++ line :: rest')%list /\ PathStr.strip line = c)
  /\ ((c = "1" \/ c = "2") /\ eff = local_data_path
      \/ c = "3" /\ eff = path_from_config /\ fs' = fs).
Proof.
  revert out. induction stdin as [|line rest IH]; intros out H;
    [discriminate|].
  cbn [choice_loop] in H.
  assert (Step : forall o,
             choice_loop flt path_from_config local_data_path fs o rest
             = Chosen eff c fs' out' rest' ->
             (exists skipped l,
                line :: rest = (skipped ++ l :: rest')%list
                /\ PathStr.strip l = c)
             /\ ((c = "1" \/ c = "2") /\ eff = local_data_path
                 \/ c = "3" /\ eff = path_from_config /\ fs' = fs)).
  { intros o Ho. destruct (IH o Ho) as [(sk & l & -> & Hl) R].
    split; [|exact R]. now exists (line :: sk), l. }
  assert (Here : forall x, PathStr.strip line = x ->
             exists skipped l,
               line :: rest = (skipped ++ l :: rest)%list
               /\ PathStr.strip l = x).
  { intros x Hx. now exists [], line. }
  destruct (String.eqb (PathStr.strip line) "1") eqn:E1.
  { apply String.eqb_eq in E1.
    destruct (Nat.eqb _ 0).
    - destruct (FS.mkdirs fs (PathStr.split local_data_path)).
      + injection H as <- <- _ _ <-. split; [now apply Here|]. left.
        rewrite E1. auto.
      + now apply Step in H.
    - destruct (shutil_copytree _ _ fs _ _) as [f st].
      destruct (failed st); [discriminate|].
      injection H as <- <- _ _ <-. split; [now apply Here|]. left.
      rewrite E1. auto. }
  destruct (String.eqb (PathStr.strip line) "2") eqn:E2.
  { apply String.eqb_eq in E2.
    destruct (FS.exists_ fs local_data_path); [now apply Step in H|].
    destruct (shutil_move _ fs _ _); [|discriminate].
    injection H as <- <- _ _ <-. split; [now apply Here|]. left.
    rewrite E2. auto. }
  destruct (String.eqb (PathStr.strip line) "3") eqn:E3.
  { apply String.eqb_eq in E3.
    injection H as <- <- <- _ <-. split; [now apply Here|]. right.
    rewrite E3. auto. }
  now apply Step in H.
Qed.

Lemma choice_decides_effective_path_witness :
  choice_loop no_faults "\game" "\proj\Source\GameFiles\SimpGamePS2"
    fresh_valid_tree [] ["x"; " 3"; "1"]
  = Chosen "\game" "3" fresh_valid_tree
      [EvPromptChoice; EvInvalidChoice; EvPromptChoice; EvUsingOriginal]
      ["1"]
  /\ ("3" = "3" /\ "\game" = "\game" /\ fresh_valid_tree = fresh_valid_tree).
Proof.
  split; [reflexivity|].
  destruct (choice_decides_effective_path no_faults "\game"
              "\proj\Source\GameFiles\SimpGamePS2" fresh_valid_tree []
              ["x"; " 3"; "1"] "\game" "3" fresh_valid_tree
              [EvPromptChoice; EvInvalidChoice; EvPromptChoice;
               EvUsingOriginal] ["1"] eq_refl)
    as [_ [[[H|H] _]|H]]; [discriminate H | discriminate H | exact H].
Defined.

(** ** The copy, whatever fails *)

Section CopyAlways.

Variable flt : list nat.
Variable total_files : nat.

Lemma upto_refl (st : copy_state) : advances_upto total_files st 0 st.
Proof.
  exists 0. split; [lia|]. split; [lia|].
  unfold progress_lines. cbn. now rewrite app_nil_r.
Qed.

Lemma upto_weaken (st st' : copy_state) (n m : nat) :
  n <= m -> advances_upto total_files st n st' ->
  advances_upto total_files st m st'.
Proof. intros Hle (k & Hk & H). exists k. split; [lia | exact H]. Qed.

Lemma upto_trans (st st1 st2 : copy_state) (n m : nat) :
  advances_upto total_files st n st1 ->
  advances_upto total_files st1 m st2 ->
  advances_upto total_files st (n + m) st2.
Proof.
  intros (k1 & L1 & C1 & P1) (k2 & L2 & C2 & P2).
  exists (k1 + k2). split; [lia|]. split; [lia|].
  rewrite P2, P1, C1. unfold progress_lines.
  rewrite seq_app, map_app, <- app_assoc.
  now replace (S (copied_files_count st) + k1)
    with (S (copied_files_count st + k1)) by lia.
Qed.

Lemma copy_with_progress_upto (c : content) (d : list (string * node))
    (name : string) (st : copy_state) :
  advances_upto total_files st 1
    (snd (copy_with_progress flt total_files c d name st)).
Proof.
  assert (Done : advances_upto total_files st 1 (copy_done total_files st)).
  { exists 1. split; [lia|]. split; [cbn; lia | reflexivity]. }
  assert (Err : advances_upto total_files st 1 (copy_error st)).
  { apply upto_weaken with (n := 0); [lia|]. exists 0.
    split; [lia|]. split; [cbn; lia|].
    unfold progress_lines. cbn. now rewrite app_nil_r. }
  unfold copy_with_progress.
  destruct (existsb (Nat.eqb (calls st)) flt); [exact Err|].
  destruct (FS.entry d name) as [[c0|sub]|]; try exact Done.
  destruct (FS.entry sub name) as [[c1|sub1]|]; cbn [snd]; auto.
Qed.

Lemma fail_state_upto (st : copy_state) (n : nat) :
  advances_upto total_files st n (fail_state st).
Proof.
  apply upto_weaken with (n := 0); [lia|]. exists 0.
  split; [lia|]. split; [cbn; lia|].
  unfold progress_lines. cbn. now rewrite app_nil_r.
Qed.

Lemma copytree_upto (src : node) :
  forall dst st,
    advances_upto total_files st (count_files src)
      (snd (copytree flt total_files src dst st)).
Proof.
  induction src as [c|es IH] using node_nested_ind; intros dst st.
  - apply fail_state_upto.
  - rewrite copytree_dir.
    assert (L : forall d st,
               advances_upto total_files st (count_files (Dir es))
                 (snd (copy_entries flt total_files es d st))).
    { clear dst st. induction es as [|[n x] es IHes]; intros d st.
      - apply upto_refl.
      - inversion IH as [|? ? Hx Hes]; subst. specialize (IHes Hes).
        cbn [copy_entries]. destruct x as [c|sub].
        + pose proof (copy_with_progress_upto c d n st) as A.
          destruct (copy_with_progress flt total_files c d n st)
            as [d' st'].
          change (count_files (Dir ((n, File c) :: es)))
            with (1 + count_files (Dir es)).
          eapply upto_trans; [exact A | apply IHes].
        + pose proof (Hx (FS.entry d n) st) as A. cbn [snd] in A.
          destruct (copytree flt total_files (Dir sub) (FS.entry d n) st)
            as [r st'].
          change (count_files (Dir ((n, Dir sub) :: es)))
            with (count_files (Dir sub) + count_files (Dir es)).
          eapply upto_trans; [exact A | apply IHes]. }
    destruct dst as [[c|d]|].
    + apply fail_state_upto.
    + specialize (L d st).
      now destruct (copy_entries flt total_files es d st).
    + specialize (L [] st).
      now destruct (copy_entries flt total_files es [] st).
Qed.

End CopyAlways.

(** ** Copy and move on well-formed trees *)

Section Transfers.

Lemma well_formed_cons (n : string) (y : node) (es : list (string * node)) :
  well_formed (Dir ((n, y) :: es)) = true ->
  FS.entry es n = None /\ well_formed y = true /\ well_formed (Dir es) = true.
Proof.
  cbn [well_formed]. destruct (FS.entry es n); [discriminate|].
  intros H. apply andb_true_iff in H. tauto.
Qed.

Lemma set_entry_fresh (d : list (string * node)) (n : string) (x : node) :
  FS.entry d n = None -> FS.set_entry d n x = (d ++ [(n, x)])%list.
Proof.
  induction d as [|[m y] d IH]; cbn [FS.entry FS.set_entry app];
    [reflexivity|].
  destruct (String.eqb n m); [discriminate|]. intros H. now rewrite IH.
Qed.

Lemma entry_app_fresh (d : list (string * node)) (n m : string) (x : node) :
  FS.entry d m = None -> m <> n -> FS.entry (d ++ [(n, x)]) m = None.
Proof.
  intros Hd Hne. induction d as [|[k y] d IH]; cbn [FS.entry app] in *.
  - apply String.eqb_neq in Hne. now rewrite Hne.
  - destruct (String.eqb m k); [discriminate | now apply IH].
Qed.

Lemma entry_in_names (es : list (string * node)) (m : string) :
  In m (map fst es) -> FS.entry es m <> None.
Proof.
  induction es as [|[k y] es IH]; [intros []|].
  cbn [map fst In FS.entry]. intros [<-|H].
  - now rewrite String.eqb_refl.
  - destruct (String.eqb m k); [discriminate | now apply IH].
Qed.

(** Without injected failures, copying a well-formed directory to a
    place where nothing is yet yields the directory itself. *)
Lemma copytree_fresh (total_files : nat) (src : node) :
  well_formed src = true ->
  match src with
  | File _ => True
  | Dir _ =>
      forall dst st,
        dst = None \/ dst = Some (Dir []) ->
        fst (copytree [] total_files src dst st) = Some src
        /\ failed (snd (copytree [] total_files src dst st)) = failed st
  end.
Proof.
  induction src as [c|es IH] using node_nested_ind; intros W; [exact I|].
  intros dst st Hdst. rewrite copytree_dir.
  assert (L : forall d st,
             (forall m, In m (map fst es) -> FS.entry d m = None) ->
             fst (copy_entries [] total_files es d st) = (d ++ es)%list
             /\ failed (snd (copy_entries [] total_files es d st))
                = failed st).
  { clear dst st Hdst. induction es as [|[n x] es IHes]; intros d st Hd.
    - cbn. now rewrite app_nil_r.
    - inversion IH as [|? ? Hx Hes]; subst.
      destruct (well_formed_cons _ _ _ W) as (Hn & Wx & Wes).
      specialize (IHes Hes Wes). cbn [snd] in Hx.
      assert (Hdn : FS.entry d n = None) by (apply Hd; now left).
      assert (Next : forall y m, In m (map fst es) ->
                       FS.entry (d ++ [(n, y)]) m = None).
      { intros y m Hm. apply entry_app_fresh; [apply Hd; now right|].
        intros ->. now apply entry_in_names in Hm. }
      cbn [copy_entries]. destruct x as [c|sub].
      + unfold copy_with_progress. cbn [existsb]. rewrite Hdn.
        rewrite (set_entry_fresh d n _ Hdn).
        destruct (IHes (d ++ [(n, File c)])%list (copy_done total_files st)
                    (Next (File c))) as [E F].
        rewrite E, F. split; [now rewrite <- app_assoc | reflexivity].
      + rewrite Hdn. destruct (Hx Wx None st (or_introl eq_refl)) as [E F].
        destruct (copytree [] total_files (Dir sub) None st) as [r st'].
        cbn [fst snd] in E, F. subst r.
        rewrite (set_entry_fresh d n _ Hdn).
        destruct (IHes (d ++ [(n, Dir sub)])%list st' (Next (Dir sub)))
          as [E' F'].
        rewrite E', F', F. split; [now rewrite <- app_assoc | reflexivity]. }
  assert (D0 : match dst with Some (Dir d) => d | _ => [] end = []).
  { destruct Hdst as [-> | ->]; reflexivity. }
  destruct (L [] st (fun _ _ => eq_refl)) as [E F].
  destruct Hdst as [-> | ->];
    destruct (copy_entries [] total_files es [] st) as [d1 st1];
    cbn [fst snd] in *; subst d1; auto.
Qed.

Lemma below_none (sp : list string) :
  forall dp, PathStr.is_prefix sp dp = false <-> below sp dp = None.
Proof.
  induction sp as [|a sp IH]; intros dp; [split; discriminate|].
  destruct dp as [|b dp]; [split; reflexivity|].
  cbn [PathStr.is_prefix below]. destruct (String.eqb a b); cbn [andb].
  - apply IH.
  - split; reflexivity.
Qed.

Lemma copy_mode_apart (es : list (string * node)) (sp dp : list string) :
  PathStr.is_prefix sp dp = false -> copy_mode_of es sp dp = Snapshot.
Proof.
  intros H. unfold copy_mode_of. apply below_none in H. now rewrite H.
Qed.

Lemma lookup_empty_dir (p : list string) :
  p <> [] -> FS.lookup (Dir []) p = None.
Proof. destruct p; [congruence | reflexivity]. Qed.

Lemma lookup_mkdirs_fresh (p : list string) :
  forall fs fs1,
    FS.lookup fs p = None -> FS.mkdirs fs p = Some fs1 ->
    FS.lookup fs1 p = Some (Dir []).
Proof.
  induction p as [|n p IH]; intros fs fs1 Hl Hm; [discriminate|].
  destruct fs as [c|es]; [discriminate|].
  cbn [FS.mkdirs FS.lookup] in *.
  destruct (FS.mkdirs _ p) as [sub'|] eqn:M; [|discriminate].
  injection Hm as <-. cbn [FS.lookup]. rewrite entry_set_same.
  destruct (FS.entry es n) as [sub|].
  - now apply (IH sub).
  - destruct p as [|m p'].
    + cbn in M. now injection M as <-.
    + now apply (IH (Dir [])).
Qed.

Lemma put_exists (p : list string) :
  forall fs y x, FS.lookup fs p = Some y -> FS.put fs p x <> None.
Proof.
  induction p as [|n p IH]; intros fs y x Hl; [discriminate|].
  destruct fs as [c|es]; [discriminate|].
  cbn [FS.put FS.lookup] in *.
  destruct p as [|m p']; [discriminate|].
  destruct (FS.entry es n) as [sub|]; [|discriminate].
  specialize (IH sub y x Hl).
  destruct (FS.put sub (m :: p') x); [discriminate | contradiction].
Qed.

Lemma lookup_mkdirs_other (q : list string) :
  forall fs fs' p,
    FS.mkdirs fs q = Some fs' ->
    PathStr.is_prefix p q = false ->
    FS.lookup fs' p = FS.lookup fs p.
Proof.
  induction q as [|b q IH]; intros fs fs' p Hm Hp.
  - destruct fs; cbn in Hm; [discriminate|]. now injection Hm as <-.
  - destruct fs as [c|es]; [discriminate|]. cbn [FS.mkdirs] in Hm.
    destruct (FS.mkdirs _ q) as [sub'|] eqn:M; [|discriminate].
    injection Hm as <-. destruct p as [|a p]; [discriminate|].
    cbn [PathStr.is_prefix] in Hp. cbn [FS.lookup].
    destruct (String.eqb a b) eqn:E.
    + apply String.eqb_eq in E. subst a. rewrite entry_set_same.
      cbn [andb] in Hp. rewrite (IH _ _ p M Hp).
      destruct (FS.entry es b); [reflexivity|].
      apply lookup_empty_dir. intros ->. discriminate.
    + apply String.eqb_neq in E. now rewrite entry_set_other.
Qed.

Lemma lookup_put_other (q : list string) :
  forall fs fs' x p,
    FS.put fs q x = Some fs' ->
    PathStr.is_prefix p q = false ->
    PathStr.is_prefix q p = false ->
    FS.lookup fs' p = FS.lookup fs p.
Proof.
  induction q as [|b q IH]; intros fs fs' x p Hput Hp Hq; [discriminate|].
  destruct fs as [c|es]; [discriminate|].
  destruct p as [|a p]; [discriminate|].
  cbn [PathStr.is_prefix] in Hp, Hq. cbn [FS.put] in Hput. cbn [FS.lookup].
  destruct (String.eqb a b) eqn:E.
  - apply String.eqb_eq in E. subst a.
    rewrite String.eqb_refl in Hq. cbn [andb] in Hp, Hq.
    destruct q as [|b' q']; [discriminate|].
    destruct (FS.entry es b) as [sub|] eqn:Eb; [|discriminate].
    destruct (FS.put sub (b' :: q') x) as [sub'|] eqn:P; [|discriminate].
    injection Hput as <-. cbn [FS.lookup]. rewrite entry_set_same.
    now apply (IH sub sub' x p).
  - apply String.eqb_neq in E.
    assert (Hes : exists es', fs' = Dir es'
                   /\ FS.entry es' a = FS.entry es a).
    { destruct q as [|b' q'].
      - injection Hput as <-. eexists. split; [reflexivity|].
        now apply entry_set_other.
      - destruct (FS.entry es b) as [sub|]; [|discriminate].
        destruct (FS.put sub (b' :: q') x); [|discriminate].
        injection Hput as <-. eexists. split; [reflexivity|].
        now apply entry_set_other. }
    destruct Hes as (es' & -> & He). cbn [FS.lookup]. now rewrite He.
Qed.

Lemma lookup_prefix_some (q : list string) :
  forall fs p x,
    FS.lookup fs p = Some x -> PathStr.is_prefix q p = true ->
    FS.lookup fs q <> None.
Proof.
  induction q as [|b q IH]; intros fs p x Hl Hq; [discriminate|].
  destruct p as [|a p]; [discriminate|].
  cbn [PathStr.is_prefix] in Hq. apply andb_true_iff in Hq.
  destruct Hq as [E Hq]. apply String.eqb_eq in E. subst b.
  destruct fs as [c|es]; [discriminate|]. cbn [FS.lookup] in *.
  destruct (FS.entry es a) as [sub|]; [|discriminate].
  now apply (IH sub p x).
Qed.

Lemma absent_not_above (fs : node) (p q : list string) (x : node) :
  FS.lookup fs p = Some x -> FS.lookup fs q = None ->
  PathStr.is_prefix q p = false.
Proof.
  intros Hp Hq. destruct (PathStr.is_prefix q p) eqn:E; [|reflexivity].
  exfalso. now apply (lookup_prefix_some q fs p x Hp E).
Qed.

Lemma well_formed_entry (es : list (string * node)) (n : string)
    (sub : node) :
  well_formed (Dir es) = true -> FS.entry es n = Some sub ->
  well_formed sub = true.
Proof.
  induction es as [|[m y] es IH]; [discriminate|].
  intros W. destruct (well_formed_cons _ _ _ W) as (_ & Wy & Wes).
  cbn [FS.entry]. destruct (String.eqb n m).
  - intros H. now injection H as <-.
  - now apply IH.
Qed.

Lemma entry_del_same (es : list (string * node)) (n : string) :
  well_formed (Dir es) = true -> FS.entry (FS.del_entry es n) n = None.
Proof.
  induction es as [|[m y] es IH]; [reflexivity|].
  intros W. destruct (well_formed_cons _ _ _ W) as (Hm & _ & Wes).
  cbn [FS.del_entry]. destruct (String.eqb n m) eqn:E.
  - apply String.eqb_eq in E. now subst m.
  - cbn [FS.entry]. rewrite E. now apply IH.
Qed.

Lemma lookup_remove_same (p : list string) :
  forall fs fs',
    well_formed fs = true -> FS.remove fs p = Some fs' ->
    FS.lookup fs' p = None.
Proof.
  induction p as [|n p IH]; intros fs fs' W H; [discriminate|].
  destruct fs as [c|es]; [discriminate|]. cbn [FS.remove] in H.
  destruct (FS.entry es n) as [sub|] eqn:E.
  2:{ destruct p; discriminate. }
  destruct p as [|m p'].
  - injection H as <-. cbn [FS.lookup]. now rewrite entry_del_same.
  - destruct (FS.remove sub (m :: p')) as [sub'|] eqn:R; [|discriminate].
    injection H as <-. cbn [FS.lookup]. rewrite entry_set_same.
    apply (IH sub sub'); [|exact R].
    now apply (well_formed_entry es n sub).
Qed.

Lemma prefix_removelast (p : list string) :
  forall q, PathStr.is_prefix p q = false ->
            PathStr.is_prefix p (removelast q) = false.
Proof.
  induction p as [|a p IH]; intros q H; [discriminate|].
  destruct q as [|b q]; [reflexivity|].
  cbn [removelast]. destruct q as [|b' q']; [reflexivity|].
  cbn [PathStr.is_prefix] in *. destruct (String.eqb a b); [|reflexivity].
  cbn [andb] in *. now apply IH.
Qed.

End Transfers.

(** X13.  Without a failing single copy, copying a well-formed source
    directory to a destination that does not exist yet (and is not
    inside the source) succeeds, and afterwards the destination holds a
    tree equal to the source, which is still in place. *)
Theorem copy_reproduces_source (total_files : nat) (fs : node)
    (src dst : string) (es : list (string * node)) :
  let r := shutil_copytree [] total_files fs src dst in
  node_at fs src = Some (Dir es) ->
  well_formed (Dir es) = true ->
  FS.exists_ fs dst = false ->
  PathStr.is_prefix (PathStr.split src) (PathStr.split dst) = false ->
  FS.mkdirs fs (PathStr.split dst) <> None ->
  failed (snd r) = false
  /\ node_at (fst r) dst = Some (Dir es)
  /\ node_at (fst r) src = Some (Dir es).
Proof.
  intros r Hsrc W Hex Hpre Hmk. subst r.
  unfold shutil_copytree, node_at, FS.exists_ in *.
  rewrite Hsrc, (copy_mode_apart es _ _ Hpre).
  destruct (FS.lookup fs (PathStr.split dst)) eqn:Ld; [discriminate|].
  destruct (FS.mkdirs fs (PathStr.split dst)) as [fs1|] eqn:M;
    [|contradiction].
  pose proof (lookup_mkdirs_fresh _ _ _ Ld M) as L1. rewrite L1.
  destruct (copytree_fresh total_files (Dir es) W (Some (Dir [])) copy_start
              (or_intror eq_refl)) as [E F].
  destruct (copytree [] total_files (Dir es) (Some (Dir [])) copy_start)
    as [x st]. cbn [fst snd] in E, F. subst x.
  pose proof (put_exists _ fs1 _ (Dir es) L1) as P.
  destruct (FS.put fs1 (PathStr.split dst) (Dir es)) as [fs2|] eqn:Pe;
    [|contradiction].
  cbn [fst snd]. split; [exact F|]. split.
  - now apply lookup_put_same with (fs := fs1).
  - rewrite (lookup_put_other _ _ _ _ _ Pe Hpre
               (absent_not_above fs _ _ _ Hsrc Ld)).
    now rewrite (lookup_mkdirs_other _ _ _ _ M Hpre).
Qed.

Lemma copy_reproduces_source_witness :
  node_at
    (fst (shutil_copytree [] 2 two_files_tree "\game"
            "\proj\Source\GameFiles\SimpGamePS2"))
    "\proj\Source\GameFiles\SimpGamePS2"
  = node_at two_files_tree "\game".
Proof.
  destruct (copy_reproduces_source 2 two_files_tree "\game"
              "\proj\Source\GameFiles\SimpGamePS2"
              [("a.bin", File Unparseable);
               ("ENVS", Dir [("b.bin", File Unparseable)])])
    as (_ & H & _);
    [reflexivity | reflexivity | reflexivity | reflexivity
     | discriminate | exact H].
Defined.

(** X14.  The copy, failed or not, changes nothing outside its
    destination: any path that is neither above the destination nor at
    or below it names afterwards what it named before. *)
Theorem copy_stays_in_destination (flt : list nat) (total_files : nat)
    (fs : node) (src dst : string) (p : list string) :
  PathStr.is_prefix p (PathStr.split dst) = false ->
  PathStr.is_prefix (PathStr.split dst) p = false ->
  FS.lookup (fst (shutil_copytree flt total_files fs src dst)) p
  = FS.lookup fs p.
Proof.
  intros Hp Hd. unfold shutil_copytree.
  destruct (FS.lookup fs (PathStr.split src)) as [[c|es]|]; try reflexivity.
  destruct (FS.mkdirs fs (PathStr.split dst)) as [fs1|] eqn:M;
    [|reflexivity].
  pose proof (lookup_mkdirs_other _ _ _ p M Hp) as K1.
  destruct (copy_mode_of es (PathStr.split src) (PathStr.split dst));
    [|exact K1|exact K1].
  destruct (copytree flt total_files (Dir es) _ copy_start) as [x st].
  destruct x as [x|]; [|exact K1].
  destruct (FS.put fs1 (PathStr.split dst) x) as [fs2|] eqn:P; [|exact K1].
  cbn [fst]. now rewrite (lookup_put_other _ _ _ _ p P Hp Hd).
Qed.

Lemma copy_stays_in_destination_witness :
  FS.lookup
    (fst (shutil_copytree [0] 2 two_files_tree "\game"
            "\proj\Source\GameFiles\SimpGamePS2"))
    ["game"]
  = FS.lookup two_files_tree ["game"].
Proof.
  apply (copy_stays_in_destination [0] 2 two_files_tree "\game"
           "\proj\Source\GameFiles\SimpGamePS2" ["game"]);
    reflexivity.
Defined.

(** X15.  A move that succeeds on a well-formed tree, to a destination
    that did not exist, puts the source tree at the destination and
    leaves nothing at the source path. *)
Theorem move_relocates (fs fs' : node) (src dst : string) :
  shutil_move false fs src dst = Some fs' ->
  well_formed fs = true ->
  FS.exists_ fs dst = false ->
  node_at fs' dst = node_at fs src
  /\ node_at fs src <> None
  /\ node_at fs' src = None.
Proof.
  unfold shutil_move, node_at, FS.exists_. intros H W Hex.
  destruct (PathStr.is_prefix (PathStr.split src) (PathStr.split dst))
    eqn:Hpre; [discriminate|].
  destruct (FS.lookup fs (PathStr.split src)) as [x|] eqn:Ls; [|discriminate].
  destruct (FS.lookup fs (PathStr.split dst)) eqn:Ld; [discriminate|].
  rewrite Ld in H.
  destruct (FS.remove fs (PathStr.split src)) as [fs1|] eqn:R; [|discriminate].
  destruct (FS.mkdirs fs1 (removelast (PathStr.split dst))) as [fs2|] eqn:M;
    [|discriminate].
  split; [now apply lookup_put_same with (fs := fs2)|].
  split; [discriminate|].
  rewrite (lookup_put_other _ _ _ _ _ H Hpre
             (absent_not_above fs _ _ _ Ls Ld)).
  rewrite (lookup_mkdirs_other _ _ _ _ M (prefix_removelast _ _ Hpre)).
  now apply (lookup_remove_same _ fs).
Qed.

Lemma move_relocates_witness :
  node_at
    match shutil_move false two_files_tree "\game"
            "\proj\Source\GameFiles\SimpGamePS2" with
    | Some fs' => fs'
    | None => two_files_tree
    end "\game"
  = None.
Proof.
  destruct (shutil_move false two_files_tree "\game"
              "\proj\Source\GameFiles\SimpGamePS2") as [fs'|] eqn:E;
    [|discriminate E].
  destruct (move_relocates two_files_tree fs' "\game"
              "\proj\Source\GameFiles\SimpGamePS2" E)
    as (_ & _ & H); [reflexivity | reflexivity | exact H].
Defined.


(** ** Whole calls *)

Lemma revalidate_stdin (flt : faults) (cfg : string) (cd : json)
    (pfc eff : string) (choice : option string) (fs : node)
    (out : list event) (stdin : list string) :
  w_stdin (snd (revalidate flt cfg cd pfc eff choice fs out stdin)) = stdin.
Proof.
  unfold revalidate.
  destruct (save_config (f_save_effective flt) _ _ _ _ _) as [[cd1 fs1] e1].
  destruct (FS.isdir fs1 _); cbn [fspath];
    match goal with
    | |- context [validation_passed ?r] => destruct (validation_passed r)
    end;
    try match goal with
      | |- context [save_config ?a ?b ?c ?d ?e ?f] =>
          destruct (save_config a b c d e f) as [[? ?] ?]
      end;
    try reflexivity.
  destruct (negb _); [destruct choice|]; reflexivity.
Qed.

Lemma verdict_shape_ok (fs : node) (pfc eff : string)
    (choice : option string) :
  result_shape (verdict fs pfc eff choice).
Proof.
  unfold verdict.
  destruct (FS.isdir fs (PathStr.join eff MARKER)); cbn [fspath];
    match goal with
    | |- context [validation_passed ?r] => destruct (validation_passed r)
    end; cbn; try (right; split; [auto | discriminate]).
  destruct (negb _); [destruct choice|]; cbn; auto;
    right; split; auto; discriminate.
Qed.

Lemma handle_shape (flt : faults) (cfg local : string) (cd : json)
    (pfc : string) (fs : node) (out : list event) (stdin : list string) :
  result_shape (fst (handle_source_path flt cfg local cd pfc fs out stdin)).
Proof.
  unfold handle_source_path. destruct (negb _).
  - destruct (choice_loop flt pfc local fs out stdin)
      as [e c f o r|f o r|f o]; cbn [fst].
    + rewrite revalidate_verdict. apply verdict_shape_ok.
    + cbn. auto 6.
    + exact I.
  - rewrite revalidate_verdict. apply verdict_shape_ok.
Qed.

(** X16.  Of the ten status codes the module defines, a call returns
    only six: CREATED, ERROR_CREATE, ERROR_READ and ERROR_FILE_OPERATION,
    each with [None], and EXISTS_VALID and EXISTS_INVALID_SUBDIRS, each
    with a path.  EXISTS_MISSING_SOURCEPATH, ERROR_CONFIG_UPDATE,
    ERROR_INVALID_SOURCEPATH_DIR and USER_PROVIDED_PATH_INVALID are never
    returned. *)
Theorem returned_statuses (flt : faults) (project_base_dir filename : string)
    (w : world) :
  result_shape
    (fst (check_or_create_config flt project_base_dir filename w)).
Proof.
  unfold check_or_create_config. destruct (negb _).
  - destruct (dump_to_file _ _ _ _) as [fs' [|]]; cbn; auto 6.
  - destruct (FS.read_file _ _) as [[cd|]|]; try (cbn; auto 6).
    destruct (check_recorded_path _ cd) as [pfc|]; [apply handle_shape|].
    destruct (prompt_loop _ _ _ _ _ _) as [p|o];
      [apply handle_shape | exact I].
Qed.

(** X17.  The local data directory is there, holds no marker and fails
    the check, and the confirmed path is another one: then the call does
    not return; reading the never-assigned [choice] at line 378 raises
    [UnboundLocalError]. *)
Theorem skipped_choice_crashes (flt : faults)
    (config_file_path local_data_path : string) (config_data : json)
    (path_from_config : string) (fs : node) (out : list event)
    (stdin : list string) :
  FS.exists_ fs local_data_path = true ->
  FS.isdir fs (PathStr.join local_data_path MARKER) = false ->
  validation_passed (validate_lists fs local_data_path) = false ->
  path_from_config <> local_data_path ->
  fst (handle_source_path flt config_file_path local_data_path config_data
         path_from_config fs out stdin)
  = Raised UnboundLocalError.
Proof.
  intros Hex Hm Hv Hne. unfold handle_source_path. rewrite Hex. cbn [negb].
  rewrite revalidate_verdict. unfold verdict. rewrite Hm. cbn [fspath].
  rewrite Hv.
  assert (E : String.eqb local_data_path path_from_config = false).
  { apply String.eqb_neq. congruence. }
  now rewrite E.
Qed.

Lemma skipped_choice_crashes_witness :
  fst (handle_source_path no_faults "\proj\project.json"
         "\proj\Source\GameFiles\SimpGamePS2" (config_with "") "\game"
         (with_local_dir local_present_tree) [] [])
  = Raised UnboundLocalError.
Proof.
  apply (skipped_choice_crashes no_faults "\proj\project.json"
           "\proj\Source\GameFiles\SimpGamePS2" (config_with "") "\game"
           (with_local_dir local_present_tree) [] []);
    [reflexivity | reflexivity | reflexivity | discriminate].
Defined.

Lemma revalidate_valid_sound (flt : faults) (cfg : string) (cd : json)
    (pfc eff : string) (choice : option string) (fs : node)
    (out : list event) (stdin : list string) (v : pyval) :
  fst (revalidate flt cfg cd pfc eff choice fs out stdin)
  = Returned EXISTS_VALID v ->
  validation_passed
    (validate_lists
       (w_fs (snd (revalidate flt cfg cd pfc eff choice fs out stdin)))
       (fspath v)) = true.
Proof.
  unfold revalidate.
  pose proof (save_keeps_isdir (f_save_effective flt) cfg cd
                "TSGPS2SourcePath" (PStr eff) fs) as K1.
  destruct (save_config (f_save_effective flt) cfg cd _ _ fs)
    as [[cd1 fs1] e1]. cbn [fst snd] in K1.
  set (ptv := if FS.isdir fs1 (PathStr.join eff MARKER)
              then PPath (PathStr.join eff MARKER) else PStr eff).
  destruct (validation_passed (validate_lists fs1 (fspath ptv))) eqn:V.
  - pose proof (save_keeps_isdir (f_save_final flt) cfg cd1
                  "TSGPS2SourcePath" ptv fs1) as K2.
    destruct (save_config (f_save_final flt) cfg cd1 _ ptv fs1)
      as [[cd2 fs2] e2]. cbn [fst snd] in *.
    intros H. injection H as <-.
    now rewrite (validate_lists_ext fs1 fs2 _ K2).
  - destruct (FS.isdir fs1 (PathStr.join eff MARKER)); cbn [fst];
      [discriminate|].
    destruct (negb _); [destruct choice|]; discriminate.
Qed.

Lemma handle_valid_sound (flt : faults) (cfg local : string) (cd : json)
    (pfc : string) (fs : node) (out : list event) (stdin : list string)
    (v : pyval) :
  fst (handle_source_path flt cfg local cd pfc fs out stdin)
  = Returned EXISTS_VALID v ->
  validation_passed
    (validate_lists
       (w_fs (snd (handle_source_path flt cfg local cd pfc fs out stdin)))
       (fspath v)) = true.
Proof.
  unfold handle_source_path. destruct (negb _).
  - destruct (choice_loop flt pfc local fs out stdin)
      as [e c f o r|f o r|f o]; cbn [fst]; try discriminate.
    apply revalidate_valid_sound.
  - apply revalidate_valid_sound.
Qed.

(** X18.  EXISTS_VALID is sound: the path returned with it is, in the
    tree the call leaves behind, a directory that passes the check, that
    is, one directly holding all eight required directories. *)
Theorem valid_result_is_valid (flt : faults)
    (project_base_dir filename : string) (w : world) (v : pyval) :
  let r := check_or_create_config flt project_base_dir filename w in
  fst r = Returned EXISTS_VALID v ->
  validation_passed (validate_lists (w_fs (snd r)) (fspath v)) = true.
Proof.
  intros r. subst r. unfold check_or_create_config. destruct (negb _).
  - destruct (dump_to_file _ _ _ _) as [fs' [|]]; discriminate.
  - destruct (FS.read_file _ _) as [[cd|]|]; try discriminate.
    destruct (check_recorded_path _ cd) as [pfc|];
      [apply handle_valid_sound|].
    destruct (prompt_loop _ _ _ _ _ _) as [p|o];
      [apply handle_valid_sound | discriminate].
Qed.

Lemma valid_result_is_valid_witness :
  validation_passed
    (validate_lists (w_fs (snd (run no_faults fresh_valid_tree ["\game"; "3"])))
       "\game") = true.
Proof.
  apply (valid_result_is_valid no_faults "\proj" "project.json"
           {| w_fs := fresh_valid_tree; w_out := [];
              w_stdin := ["\game"; "3"] |} (PStr "\game")).
  reflexivity.
Defined.

(** ** What the final save leaves on disk *)

Section FinalSave.

Lemma serialisable_obj (m : list (string * json)) :
  serialisable (JObj m) = forallb (fun e => serialisable (snd e)) m.
Proof.
  cbn [serialisable]. induction m as [|[k v] m IH]; [reflexivity|].
  cbn [forallb snd]. now rewrite <- IH.
Qed.

Lemma serialisable_lookup (m : list (string * json)) (k : string) (v : json) :
  serialisable (JObj m) = true -> dict_lookup m k = Some v ->
  serialisable v = true.
Proof.
  rewrite serialisable_obj. induction m as [|[k0 v0] m IH]; [discriminate|].
  cbn [forallb snd dict_lookup]. intros H. apply andb_true_iff in H.
  destruct H as [H0 H]. destruct (String.eqb k k0).
  - intros E. now injection E as <-.
  - now apply IH.
Qed.

Lemma serialisable_set (m : list (string * json)) (k : string) (v : json) :
  serialisable (JObj m) = true -> serialisable v = true ->
  serialisable (JObj (dict_set m k v)) = true.
Proof.
  rewrite !serialisable_obj. intros Hm Hv.
  induction m as [|[k0 v0] m IH]; cbn [dict_set forallb snd] in *.
  - now rewrite Hv.
  - apply andb_true_iff in Hm. destruct Hm as [H0 Hm].
    destruct (String.eqb k k0); cbn [forallb snd].
    + now rewrite Hv, Hm.
    + now rewrite H0, IH.
Qed.

Lemma serialisable_set_false (m : list (string * json)) (k : string)
    (v : json) :
  serialisable v = false -> serialisable (JObj (dict_set m k v)) = false.
Proof.
  rewrite serialisable_obj. intros Hv.
  induction m as [|[k0 v0] m IH]; cbn [dict_set forallb snd].
  - now rewrite Hv.
  - destruct (String.eqb k k0); cbn [forallb snd].
    + now rewrite Hv.
    + rewrite IH. apply andb_false_r.
Qed.

Lemma update_serialisable (cd cd' : json) (key : string) (v : json) :
  serialisable cd = true -> serialisable v = true ->
  set_directory_entry cd key v = Some cd' ->
  serialisable cd' = true.
Proof.
  intros Hcd Hv H.
  destruct (set_directory_entry_inv _ _ _ _ H)
    as (m & rm & dm & -> & HR & HD & ->).
  assert (Hrm : serialisable (JObj rm) = true).
  { destruct HR as [HR | [_ ->]]; [|reflexivity].
    now apply (serialisable_lookup m "RemakeEngine"). }
  assert (Hdm : serialisable (JObj dm) = true).
  { destruct HD as [HD | [_ ->]]; [|reflexivity].
    now apply (serialisable_lookup rm "Directories"). }
  apply serialisable_set; [exact Hcd|].
  apply serialisable_set; [exact Hrm|].
  now apply serialisable_set.
Qed.

Lemma update_unserialisable (cd cd' : json) (key : string) (v : json) :
  serialisable v = false ->
  set_directory_entry cd key v = Some cd' ->
  serialisable cd' = false.
Proof.
  intros Hv H.
  destruct (set_directory_entry_inv _ _ _ _ H)
    as (m & rm & dm & -> & HR & HD & ->).
  now repeat apply serialisable_set_false.
Qed.

Lemma update_again (cd cd1 : json) (key key' : string) (v v' : json) :
  set_directory_entry cd key v = Some cd1 ->
  set_directory_entry cd1 key' v' <> None.
Proof.
  intros H.
  destruct (set_directory_entry_inv _ _ _ _ H)
    as (m & rm & dm & -> & HR & HD & ->).
  unfold set_directory_entry. now rewrite !dict_lookup_set_same.
Qed.

Lemma write_existing_file (fs : node) (path : string) (c0 c : content)
    (q : string) :
  FS.read_file fs path = Some c0 -> FS.isdir fs q = true ->
  FS.write_file fs path c <> None.
Proof.
  unfold FS.read_file, FS.write_file, FS.isdir. intros Hr Hq.
  destruct (FS.lookup fs (PathStr.split path)) as [[c1|es]|] eqn:L;
    try discriminate.
  destruct (PathStr.split path) as [|a p].
  - cbn in L. injection L as ->. now rewrite no_dir_below in Hq.
  - now apply (put_exists (a :: p) fs (File c1)).
Qed.

(** A save without injected failure, of a document the update block
    accepts, into a configuration file that exists. *)
Lemma save_into_existing_file (cfg : string) (cd cd' : json) (key : string)
    (v : pyval) (fs : node) (c0 : content) (q : string) :
  FS.read_file fs cfg = Some c0 -> FS.isdir fs q = true ->
  set_directory_entry cd key (to_json v) = Some cd' ->
  fst (fst (save_config false cfg cd key v fs)) = cd'
  /\ FS.read_file (snd (fst (save_config false cfg cd key v fs))) cfg
     = Some (if serialisable cd' then Json cd' else Unparseable).
Proof.
  intros Hr Hq Hs. unfold save_config, dump_to_file. rewrite Hs.
  destruct (serialisable cd').
  - pose proof (write_existing_file fs cfg c0 (Json cd') q Hr Hq) as W.
    destruct (FS.write_file fs cfg (Json cd')) as [fs'|] eqn:E;
      [|contradiction].
    cbn [fst snd]. split; [reflexivity|].
    now apply write_file_read with (fs := fs).
  - pose proof (write_existing_file fs cfg c0 Unparseable q Hr Hq) as W.
    destruct (FS.write_file fs cfg Unparseable) as [fs'|] eqn:E;
      [|contradiction].
    cbn [fst snd]. split; [reflexivity|].
    now apply write_file_read with (fs := fs).
Qed.

(** Any save leaves a configuration file that was there in place. *)
Lemma save_keeps_file (fault : bool) (cfg : string) (cd : json)
    (key : string) (v : pyval) (fs : node) (c0 : content) :
  FS.read_file fs cfg = Some c0 ->
  exists c1,
    FS.read_file (snd (fst (save_config fault cfg cd key v fs))) cfg
    = Some c1.
Proof.
  intros Hr. unfold save_config.
  destruct (set_directory_entry cd key (to_json v)) as [cd'|];
    [|now exists c0].
  unfold dump_to_file. destruct fault; [now exists c0|].
  destruct (serialisable cd').
  - destruct (FS.write_file fs cfg (Json cd')) as [fs'|] eqn:E;
      cbn [fst snd]; [|now exists c0].
    eexists. apply (write_file_read _ _ _ _ E).
  - destruct (FS.write_file fs cfg Unparseable) as [fs'|] eqn:E;
      cbn [fst snd]; [|now exists c0].
    eexists. apply (write_file_read _ _ _ _ E).
Qed.

Lemma save_config_data (fault : bool) (cfg : string) (cd cd' : json)
    (key : string) (v : pyval) (fs : node) :
  set_directory_entry cd key (to_json v) = Some cd' ->
  fst (fst (save_config fault cfg cd key v fs)) = cd'.
Proof.
  intros H. unfold save_config. rewrite H.
  now destruct (dump_to_file fault fs cfg cd').
Qed.

(** What is at the configuration path after the step that follows the
    path decision, when validation passes, the file exists, the document
    has dict levels and the final save meets no injected failure. *)
Lemma revalidate_final_file (flt : faults) (cfg : string) (cd cd1 : json)
    (pfc eff : string) (choice : option string) (fs : node)
    (out : list event) (stdin : list string) (c0 : content) :
  let marker := FS.isdir fs (PathStr.join eff MARKER) in
  let ptv := if marker then PPath (PathStr.join eff MARKER) else PStr eff in
  FS.read_file fs cfg = Some c0 ->
  set_directory_entry cd "TSGPS2SourcePath" (JStr eff) = Some cd1 ->
  validation_passed (validate_lists fs (fspath ptv)) = true ->
  f_save_final flt = false ->
  exists cd2,
    set_directory_entry cd1 "TSGPS2SourcePath" (to_json ptv) = Some cd2
    /\ revalidate flt cfg cd pfc eff choice fs out stdin
       = (Returned EXISTS_VALID ptv,
          snd (revalidate flt cfg cd pfc eff choice fs out stdin))
    /\ FS.read_file
         (w_fs (snd (revalidate flt cfg cd pfc eff choice fs out stdin))) cfg
       = Some (if serialisable cd2 then Json cd2 else Unparseable).
Proof.
  intros marker ptv Hr Hs Hv Hf.
  destruct (set_directory_entry cd1 "TSGPS2SourcePath" (to_json ptv))
    as [cd2|] eqn:S2;
    [|exfalso; exact (update_again _ _ _ _ _ _ Hs S2)].
  exists cd2. split; [reflexivity|].
  unfold revalidate.
  pose proof (save_keeps_isdir (f_save_effective flt) cfg cd
                "TSGPS2SourcePath" (PStr eff) fs) as K.
  pose proof (save_keeps_file (f_save_effective flt) cfg cd
                "TSGPS2SourcePath" (PStr eff) fs c0 Hr) as [c1 F].
  pose proof (save_config_data (f_save_effective flt) cfg cd cd1
                "TSGPS2SourcePath" (PStr eff) fs Hs) as D.
  destruct (save_config (f_save_effective flt) cfg cd _ _ fs)
    as [[cd1' fs1] e1]. cbn [fst snd] in K, F, D. subst cd1'.
  rewrite (K (PathStr.join eff MARKER)). fold marker. fold ptv.
  rewrite (validate_lists_ext fs fs1 _ K), Hv, Hf.
  assert (Q : FS.isdir fs1 (fspath ptv) = true).
  { rewrite K. unfold validate_lists, validate_against, validation_passed,
      check_dirs_exist in Hv. cbn [fst snd] in Hv.
    destruct (FS.isdir fs (fspath ptv)); [reflexivity|].
    cbn in Hv. discriminate. }
  destruct (save_into_existing_file cfg cd1 cd2 "TSGPS2SourcePath" ptv fs1
              c1 (fspath ptv) F Q S2) as [E1 E2].
  destruct (save_config false cfg cd1 "TSGPS2SourcePath" ptv fs1)
    as [[cd2' fs2] e2]. cbn [fst snd] in *. subst cd2'. auto.
Qed.

End FinalSave.

Lemma unreadable_config (flt : faults) (project_base_dir filename : string)
    (w : world) :
  FS.read_file (w_fs w) (PathStr.join project_base_dir filename)
  = Some Unparseable ->
  check_or_create_config flt project_base_dir filename w
  = (Returned ERROR_READ PNone,
     {| w_fs := w_fs w; w_out := (w_out w ++ [EvErrorReading])%list;
        w_stdin := w_stdin w |}).
Proof.
  intros H. unfold check_or_create_config.
  assert (E : FS.exists_ (w_fs w) (PathStr.join project_base_dir filename)
              = true).
  { unfold FS.exists_, FS.read_file in *.
    now destruct (FS.lookup (w_fs w) _). }
  now rewrite E, H.
Qed.

(** X19.  Without a marker, a valid run does persist what it returns:
    when the configuration file exists, its document has dict levels and
    holds JSON values only, the check passes at the effective path and
    the final save meets no failure, the call returns EXISTS_VALID with
    the effective path as a [str], and the file then holds a document
    whose TSGPS2SourcePath is that path. *)
Theorem valid_path_persisted_without_marker (flt : faults)
    (config_file_path : string) (config_data cd1 : json)
    (path_from_config effective_source_path : string)
    (choice : option string) (fs : node) (out : list event)
    (stdin : list string) (c0 : content) :
  let r := revalidate flt config_file_path config_data path_from_config
             effective_source_path choice fs out stdin in
  FS.read_file fs config_file_path = Some c0 ->
  serialisable config_data = true ->
  set_directory_entry config_data "TSGPS2SourcePath"
    (JStr effective_source_path) = Some cd1 ->
  FS.isdir fs (PathStr.join effective_source_path MARKER) = false ->
  validation_passed (validate_lists fs effective_source_path) = true ->
  f_save_final flt = false ->
  fst r = Returned EXISTS_VALID (PStr effective_source_path)
  /\ exists j,
       FS.read_file (w_fs (snd r)) config_file_path = Some (Json j)
       /\ read_source_path j = Some (JStr effective_source_path).
Proof.
  intros r Hr Hser Hs Hm Hv Hf.
  pose proof (revalidate_final_file flt config_file_path config_data cd1
                path_from_config effective_source_path choice fs out stdin
                c0 Hr Hs) as L.
  cbn zeta in L. rewrite Hm in L. cbn [fspath to_json] in L.
  destruct (L Hv Hf) as (cd2 & S2 & E & F). fold r in E, F.
  split; [now rewrite E|].
  assert (Ser : serialisable cd2 = true).
  { apply (update_serialisable cd1 cd2 "TSGPS2SourcePath"
             (JStr effective_source_path)); [|reflexivity|exact S2].
    now apply (update_serialisable config_data cd1 "TSGPS2SourcePath"
                 (JStr effective_source_path)). }
  rewrite Ser in F. exists cd2. split; [exact F|].
  now apply set_then_read with (config_data := cd1).
Qed.

Lemma valid_path_persisted_without_marker_witness :
  fst (revalidate no_faults "\proj\project.json" (config_with "") "\game"
         "\game" (Some "3") fresh_valid_tree [] [])
  = Returned EXISTS_VALID (PStr "\game").
Proof.
  destruct (valid_path_persisted_without_marker no_faults
              "\proj\project.json" (config_with "") (config_with "\game")
              "\game" "\game" (Some "3") fresh_valid_tree [] []
              (Json (config_with ""))) as [H _];
    [reflexivity | reflexivity | reflexivity | reflexivity | reflexivity
     | reflexivity | exact H].
Defined.

(** X20.  With the marker present a valid run damages the file: when
    the configuration file exists, its document has dict levels, the
    check passes inside the marker directory and the final save meets no
    injected failure, the call returns EXISTS_VALID, the file is left
    unparseable, and the next call on it returns ERROR_READ. *)
Theorem marker_run_breaks_next_run (flt flt' : faults)
    (project_base_dir filename : string) (config_data cd1 : json)
    (path_from_config effective_source_path : string)
    (choice : option string) (fs : node) (out out' : list event)
    (stdin stdin' : list string) (c0 : content) :
  let config_file_path := PathStr.join project_base_dir filename in
  let r := revalidate flt config_file_path config_data path_from_config
             effective_source_path choice fs out stdin in
  FS.read_file fs config_file_path = Some c0 ->
  set_directory_entry config_data "TSGPS2SourcePath"
    (JStr effective_source_path) = Some cd1 ->
  FS.isdir fs (PathStr.join effective_source_path MARKER) = true ->
  validation_passed
    (validate_lists fs (PathStr.join effective_source_path MARKER)) = true ->
  f_save_final flt = false ->
  fst r = Returned EXISTS_VALID
            (PPath (PathStr.join effective_source_path MARKER))
  /\ FS.read_file (w_fs (snd r)) config_file_path = Some Unparseable
  /\ fst (check_or_create_config flt' project_base_dir filename
            {| w_fs := w_fs (snd r); w_out := out'; w_stdin := stdin' |})
     = Returned ERROR_READ PNone.
Proof.
  intros cfg r Hr Hs Hm Hv Hf.
  pose proof (revalidate_final_file flt cfg config_data cd1
                path_from_config effective_source_path choice fs out stdin
                c0 Hr Hs) as L.
  cbn zeta in L. rewrite Hm in L. cbn [fspath to_json] in L.
  destruct (L Hv Hf) as (cd2 & S2 & E & F). fold r in E, F.
  rewrite (update_unserialisable cd1 cd2 "TSGPS2SourcePath"
             (JPathObj (PathStr.join effective_source_path MARKER))
             eq_refl S2) in F.
  split; [now rewrite E|]. split; [exact F|].
  now rewrite unreadable_config.
Qed.

Lemma marker_run_breaks_next_run_witness :
  fst (check_or_create_config no_faults "\proj" "project.json"
         {| w_fs := w_fs (snd (revalidate no_faults "\proj\project.json"
                                 (config_with "\game") "\game" "\game"
                                 (Some "3") marker_valid_tree [] []));
            w_out := []; w_stdin := [] |})
  = Returned ERROR_READ PNone.
Proof.
  destruct (marker_run_breaks_next_run no_faults no_faults "\proj"
              "project.json" (config_with "\game") (config_with "\game")
              "\game" "\game" (Some "3") marker_valid_tree [] [] [] []
              (Json (config_with "\game"))) as (_ & _ & H);
    [reflexivity | reflexivity | reflexivity | reflexivity | reflexivity
     | exact H].
Defined.

(** X21.  When the local data directory already exists and the recorded
    path is trusted, the call reads no input at all and checks the local
    data directory, not the recorded path: what it returns is decided by
    the local directory alone. *)
Theorem existing_local_dir_is_checked (flt : faults)
    (project_base_dir filename : string) (w : world) (config_data : json)
    (p : string) :
  let local_data_path :=
    PathStr.join project_base_dir "Source\GameFiles\SimpGamePS2" in
  let r := check_or_create_config flt project_base_dir filename w in
  FS.read_file (w_fs w) (PathStr.join project_base_dir filename)
  = Some (Json config_data) ->
  check_recorded_path (w_fs w) config_data = Some p ->
  FS.exists_ (w_fs w) local_data_path = true ->
  fst r = verdict (w_fs w) p local_data_path None
  /\ w_stdin (snd r) = w_stdin w.
Proof.
  intros local r Hr Hc Hex. subst r. unfold check_or_create_config.
  assert (E : FS.exists_ (w_fs w) (PathStr.join project_base_dir filename)
              = true).
  { unfold FS.exists_, FS.read_file in *.
    now destruct (FS.lookup (w_fs w) _). }
  rewrite E, Hr, Hc. cbn [negb]. unfold handle_source_path.
  fold local. rewrite Hex. cbn [negb].
  split; [apply revalidate_verdict | apply revalidate_stdin].
Qed.

Lemma existing_local_dir_is_checked_witness :
  fst (run no_faults recorded_and_local_tree ["never read"])
  = Raised UnboundLocalError
  /\ w_stdin (snd (run no_faults recorded_and_local_tree ["never read"]))
     = ["never read"].
Proof.
  apply (existing_local_dir_is_checked no_faults "\proj" "project.json"
           {| w_fs := recorded_and_local_tree; w_out := [];
              w_stdin := ["never read"] |} (config_with "\game") "\game");
    reflexivity.
Defined.

Lemma fresh_config_eof (flt : faults)
    (project_base_dir filename : string) (fs : node) (out : list event) :
  FS.read_file fs (PathStr.join project_base_dir filename)
  = Some (Json (default_data project_base_dir)) ->
  check_or_create_config flt project_base_dir filename
    {| w_fs := fs; w_out := out; w_stdin := [] |}
  = (Raised EOFError,
     {| w_fs := fs; w_out := (out ++ [EvPromptPath])%list; w_stdin := [] |}).
Proof.
  intros Hr. unfold check_or_create_config. cbn [w_fs w_out w_stdin].
  assert (E : FS.exists_ fs (PathStr.join project_base_dir filename) = true).
  { unfold FS.exists_, FS.read_file in *. now destruct (FS.lookup fs _). }
  now rewrite E, Hr.
Qed.



(** ** [main] and its re-entry *)

Section MainFacts.

Variable flts : nat -> faults.
Variable project_base_dir : string.

Let cfg : string := PathStr.join project_base_dir "project.json".

Lemma creation_step (flt : faults) (w : world) (fs' : node) :
  FS.exists_ (w_fs w) cfg = false ->
  f_create flt = false ->
  FS.write_file (w_fs w) cfg (Json (default_data project_base_dir))
  = Some fs' ->
  check_or_create_config flt project_base_dir "project.json" w
  = (Returned CREATED PNone,
     {| w_fs := fs'; w_out := (w_out w ++ [EvCreated])%list;
        w_stdin := w_stdin w |}).
Proof.
  intros Hex Hf Hw. unfold check_or_create_config. fold cfg.
  rewrite Hex. cbn [negb]. unfold dump_to_file. rewrite Hf.
  change (serialisable (default_data project_base_dir)) with true.
  cbn iota. now rewrite Hw.
Qed.

(** CREATED is returned only when the file was absent, and leaves it
    present. *)
Lemma created_means_written (flt : faults) (w w1 : world) (v : pyval) :
  check_or_create_config flt project_base_dir "project.json" w
  = (Returned CREATED v, w1) ->
  FS.exists_ (w_fs w) cfg = false
  /\ v = PNone
  /\ FS.read_file (w_fs w1) cfg
     = Some (Json (default_data project_base_dir)).
Proof.
  unfold check_or_create_config. fold cfg.
  destruct (FS.exists_ (w_fs w) cfg) eqn:Hex; cbn [negb].
  - intros H. exfalso.
    assert (S : forall pfc cd fs out stdin,
               fst (handle_source_path flt cfg
                      (PathStr.join project_base_dir
                         "Source\GameFiles\SimpGamePS2")
                      cd pfc fs out stdin) <> Returned CREATED v).
    { intros pfc cd fs out stdin. unfold handle_source_path.
      assert (V : forall eff ch f o i,
                 fst (revalidate flt cfg cd pfc eff ch f o i)
                 <> Returned CREATED v).
      { intros eff ch f o i C. rewrite revalidate_verdict in C.
        pose proof (verdict_ends_by_validation f pfc eff ch) as E.
        rewrite C in E. destruct E; discriminate. }
      destruct (negb _); [|apply V].
      destruct (choice_loop _ _ _ _ _ _) as [e c f o r|f o r|f o];
        [apply V | discriminate | discriminate]. }
    destruct (FS.read_file (w_fs w) cfg) as [[cd|]|]; try discriminate.
    destruct (check_recorded_path (w_fs w) cd) as [pfc|].
    + apply (S pfc cd (w_fs w) (w_out w) (w_stdin w)). now rewrite H.
    + destruct (prompt_loop _ _ _ _ _ _) as [p|o]; [|discriminate].
      apply (S (p_path p) (p_config p) (p_fs p) (p_out p) (p_stdin p)).
      now rewrite H.
  - unfold dump_to_file. destruct (f_create flt); [discriminate|].
    change (serialisable (default_data project_base_dir)) with true.
    cbn iota.
    destruct (FS.write_file (w_fs w) cfg _) as [fs'|] eqn:W; [|discriminate].
    intros H. injection H as <- <-. cbn [w_fs].
    split; [reflexivity|]. split; [reflexivity|].
    now apply write_file_read with (fs := w_fs w).
Qed.

Lemma read_means_exists (fs : node) (path : string) (c : content) :
  FS.read_file fs path = Some c -> FS.exists_ fs path = true.
Proof.
  unfold FS.read_file, FS.exists_. now destruct (FS.lookup fs _).
Qed.

Lemma main_unfold (k call : nat) (w : main_world) :
  main (S k) flts call project_base_dir w
  = main_level (main k flts (S call) project_base_dir) (flts call)
      project_base_dir w.
Proof. reflexivity. Qed.

(** With the file present, one level of [main] is all there is. *)
Lemma main_without_creation (again : main_world ->
                                     option (outcome * main_world))
    (flt : faults) (w : main_world) :
  FS.exists_ (m_fs w) cfg = true ->
  main_level again flt project_base_dir w
  = main_level (fun _ => None) flt project_base_dir w
  /\ main_level again flt project_base_dir w <> None.
Proof.
  intros Hex. unfold main_level.
  destruct (check_or_create_config flt project_base_dir
              "project.json" _) as [o w1] eqn:C.
  destruct o as [s v|e]; [|split; [reflexivity | discriminate]].
  destruct s; try (split; [reflexivity | discriminate]).
  apply created_means_written in C. cbn [w_fs] in C.
  destruct C as [C _]. rewrite Hex in C. discriminate.
Qed.

(** After a creation the nested level does not depend on what would
    come below it. *)
Lemma main_level_twice (again again' : main_world ->
                                       option (outcome * main_world))
    (flt flt' : faults) (w : main_world) :
  main_level (main_level again flt' project_base_dir) flt
    project_base_dir w
  = main_level (main_level again' flt' project_base_dir) flt
      project_base_dir w
  /\ main_level (main_level again flt' project_base_dir) flt
       project_base_dir w <> None.
Proof.
  unfold main_level at 1 3 5.
  destruct (check_or_create_config flt project_base_dir
              "project.json" _) as [o w1] eqn:C.
  destruct o as [s v|e]; [|split; [reflexivity | discriminate]].
  destruct s; try (split; [reflexivity | discriminate]).
  apply created_means_written in C. destruct C as (_ & -> & R).
  apply read_means_exists in R.
  set (w2 := {| m_fs := w_fs w1; m_out := _; m_stdin := w_stdin w1 |}).
  destruct (main_without_creation again flt' w2 R) as [E1 N1].
  destruct (main_without_creation again' flt' w2 R) as [E2 _].
  rewrite E2, <- E1.
  destruct (main_level again flt' project_base_dir w2)
    as [[[s' v'|e'] w3]|];
    [split; [reflexivity | discriminate]
    |split; [reflexivity | discriminate]
    |contradiction].
Qed.

Lemma main_two_levels (n call : nat) (w : main_world) :
  main (S (S n)) flts call project_base_dir w
  = main 2 flts call project_base_dir w
  /\ main 2 flts call project_base_dir w <> None.
Proof.
  destruct (main_level_twice (main n flts (S (S call)) project_base_dir)
              (main 0 flts (S (S call)) project_base_dir)
              (flts call) (flts (S call)) w) as [E N].
  split; [exact E|]. intros H. apply N. rewrite E. exact H.
Qed.

Lemma absent_config_status (flt : faults) (w : world) :
  FS.exists_ (w_fs w) cfg = false ->
  fst (check_or_create_config flt project_base_dir "project.json" w)
  = Returned CREATED PNone
  \/ fst (check_or_create_config flt project_base_dir "project.json" w)
     = Returned ERROR_CREATE PNone.
Proof.
  intros Hex. unfold check_or_create_config. fold cfg. rewrite Hex.
  cbn [negb]. destruct (dump_to_file _ _ _ _) as [fs' [|]]; auto.
Qed.

Lemma main_from_absent (n call : nat) (w : main_world) :
  FS.exists_ (m_fs w) cfg = false ->
  match main (S (S n)) flts call project_base_dir w with
  | Some (Returned s v, _) => (s = CREATED \/ s = ERROR_CREATE) /\ v = PNone
  | Some (Raised _, _) => True
  | None => False
  end.
Proof.
  intros Hex.
  pose proof (absent_config_status (flts call)
                {| w_fs := m_fs w; w_out := []; w_stdin := m_stdin w |} Hex)
    as St.
  rewrite !main_unfold. unfold main_level at 1.
  destruct (check_or_create_config (flts call) project_base_dir
              "project.json" _) as [o w1] eqn:C.
  cbn [fst] in St. destruct St as [-> | ->]; [|auto].
  apply created_means_written in C. destruct C as (_ & _ & R).
  apply read_means_exists in R.
  set (w2 := {| m_fs := w_fs w1; m_out := _; m_stdin := w_stdin w1 |}).
  destruct (main_without_creation
              (main n flts (S (S call)) project_base_dir)
              (flts (S call)) w2 R) as [_ N1].
  change (main (S n) flts (S call) project_base_dir w2)
    with (main_level (main n flts (S (S call)) project_base_dir)
            (flts (S call)) project_base_dir w2).
  destruct (main_level _ (flts (S call)) project_base_dir w2)
    as [[[s' v'|e'] w3]|];
    [auto | exact I | contradiction].
Qed.

End MainFacts.

(** X23.  [main] re-enters itself at most once: the call after a
    creation finds the file and cannot create again, so two levels are
    always enough and give a result. *)
Theorem main_reenters_once (flts : nat -> faults) (project_base_dir : string)
    (n call : nat) (w : main_world) :
  main (S (S n)) flts call project_base_dir w
  = main 2 flts call project_base_dir w
  /\ main 2 flts call project_base_dir w <> None.
Proof. apply main_two_levels. Qed.

(** X24.  Started where the configuration file is missing, [main] never
    hands a validated path to its caller: whatever the nested run
    achieves, [main] returns the first call's (CREATED, None), or
    (ERROR_CREATE, None) when the file could not be written, unless the
    nested run raises. *)
Theorem main_discards_nested_result (flts : nat -> faults)
    (project_base_dir : string) (n call : nat) (w : main_world) :
  FS.exists_ (m_fs w) (PathStr.join project_base_dir "project.json")
  = false ->
  match main (S (S n)) flts call project_base_dir w with
  | Some (Returned s v, _) => (s = CREATED \/ s = ERROR_CREATE) /\ v = PNone
  | Some (Raised _, _) => True
  | None => False
  end.
Proof. apply main_from_absent. Qed.

Lemma main_discards_nested_result_witness :
  FS.exists_ (m_fs first_start) "\proj\project.json" = false
  /\ match main 2 (fun _ => no_faults) 0 "\proj" first_start with
     | Some (Returned s v, _) =>
         (s = CREATED \/ s = ERROR_CREATE) /\ v = PNone
     | Some (Raised _, _) => True
     | None => False
     end.
Proof.
  split; [reflexivity|].
  apply (main_discards_nested_result (fun _ => no_faults) "\proj" 0 0
           first_start).
  reflexivity.
Defined.

(** X25.  Started where the configuration file is missing and can be
    written, with no operator input to read, [main] creates the file,
    reports the creation, re-enters, and ends in [EOFError] at the first
    prompt; the file stays as created. *)
Theorem main_without_input (flts : nat -> faults) (project_base_dir : string)
    (n call : nat) (w : main_world) (fs' : node) :
  let config_file_path := PathStr.join project_base_dir "project.json" in
  FS.exists_ (m_fs w) config_file_path = false ->
  f_create (flts call) = false ->
  FS.write_file (m_fs w) config_file_path
    (Json (default_data project_base_dir)) = Some fs' ->
  m_stdin w = [] ->
  main (S (S n)) flts call project_base_dir w
  = Some (Raised EOFError,
          {| m_fs := fs';
             m_out := (m_out w
                         ++ [FromResolver EvCreated;
                             FromMain (RFinalStatus CREATED);
                             FromMain RNewlyCreated;
                             FromResolver EvPromptPath])%list;
             m_stdin := [] |})
  /\ FS.read_file fs' config_file_path
     = Some (Json (default_data project_base_dir)).
Proof.
  intros cfg Hex Hf Hw Hin.
  pose proof (write_file_read _ _ _ _ Hw) as R. split; [|exact R].
  rewrite main_unfold. unfold main_level.
  rewrite (creation_step project_base_dir (flts call)
             {| w_fs := m_fs w; w_out := []; w_stdin := m_stdin w |} fs'
             Hex Hf Hw).
  cbn [w_fs w_out w_stdin app map status_report]. rewrite Hin.
  change (main (S n) flts (S call) project_base_dir)
    with (main_level (main n flts (S (S call)) project_base_dir)
            (flts (S call)) project_base_dir).
  unfold main_level. cbn [m_fs m_stdin].
  rewrite (fresh_config_eof (flts (S call)) project_base_dir "project.json"
             fs' [] R).
  cbn [w_fs w_out w_stdin m_out app map].
  now rewrite <- !app_assoc.
Qed.

Lemma main_without_input_witness :
  main 2 (fun _ => no_faults) 0 "\proj"
    {| m_fs := empty_project; m_out := []; m_stdin := [] |}
  = Some (Raised EOFError,
          {| m_fs := Dir [("proj",
                           Dir [("project.json",
                                 File (Json (default_data "\proj")))])];
             m_out := [FromResolver EvCreated;
                       FromMain (RFinalStatus CREATED);
                       FromMain RNewlyCreated;
                       FromResolver EvPromptPath];
             m_stdin := [] |}).
Proof.
  destruct (main_without_input (fun _ => no_faults) "\proj" 0 0
              {| m_fs := empty_project; m_out := []; m_stdin := [] |}
              (Dir [("proj",
                     Dir [("project.json",
                           File (Json (default_data "\proj")))])]))
    as [H _]; [reflexivity | reflexivity | reflexivity | reflexivity|].
  exact H.
Defined.

(** ** The copy of a source with symbolic links *)

Section LinkedCopy.

Variable flt : list nat.
Variable total_files : nat.

Lemma lnode_nested_ind (P : lnode -> Prop) :
  (forall c, P (LFile c)) ->
  (forall es, Forall (fun e => P (snd e)) es -> P (LDir es)) ->
  (forall c, P (LLinkFile c)) ->
  (forall es, Forall (fun e => P (snd e)) es -> P (LLinkDir es)) ->
  P LDangling ->
  forall x, P x.
Proof.
  intros Hf Hd Hlf Hld Hg. fix IH 1.
  intros [c|es|c|es|]; [apply Hf | apply Hd | apply Hlf | apply Hld | exact Hg].
  - induction es as [|[n y] es IHes]; constructor; [apply IH | exact IHes].
  - induction es as [|[n y] es IHes]; constructor; [apply IH | exact IHes].
Qed.

Lemma copytree_links_dir (x : lnode) (es : list (string * lnode))
    (dst : option node) (st : copy_state) :
  entries_of x = Some es ->
  copytree_links flt total_files x dst st
  = match dst with
    | Some (File _) => (dst, fail_state st)
    | _ =>
        let '(d1, st1) :=
          copy_entries_links flt total_files es
            (match dst with Some (Dir d) => d | _ => [] end) st in
        (Some (Dir d1), st1)
    end.
Proof.
  intros Hx.
  assert (E : forall es d st,
             (fix each (es : list (string * lnode)) (d : list (string * node))
                  (st : copy_state) : list (string * node) * copy_state :=
                match es with
                | [] => (d, st)
                | (n, x) :: es' =>
                    match x with
                    | LFile c =>
                        let '(d', st') :=
                          copy_with_progress flt total_files c d n st in
                        each es' d' st'
                    | LLinkFile c =>
                        let '(d', st') :=
                          copy_with_progress flt total_files c d n st in
                        each es' d' st'
                    | LDangling => each es' d (copy_error st)
                    | LDir _ =>
                        let '(r, st') :=
                          copytree_links flt total_files x (FS.entry d n) st in
                        each es'
                          (match r with
                           | Some x' => FS.set_entry d n x'
                           | None => d
                           end) st'
                    | LLinkDir _ =>
                        let '(r, st') :=
                          copytree_links flt total_files x (FS.entry d n) st in
                        each es'
                          (match r with
                           | Some x' => FS.set_entry d n x'
                           | None => d
                           end) st'
                    end
                end) es d st
             = copy_entries_links flt total_files es d st).
  { clear. induction es as [|[n x] es IH]; intros d st; [reflexivity|].
    cbn [copy_entries_links]. destruct x as [c|sub|c|sub|].
    - destruct (copy_with_progress flt total_files c d n st) as [d' st'].
      apply IH.
    - destruct (copytree_links flt total_files (LDir sub) (FS.entry d n) st)
        as [r st'].
      apply IH.
    - destruct (copy_with_progress flt total_files c d n st) as [d' st'].
      apply IH.
    - destruct (copytree_links flt total_files (LLinkDir sub)
                  (FS.entry d n) st) as [r st'].
      apply IH.
    - apply IH. }
  destruct x as [c|es0|c|es0|]; try discriminate;
    cbn [entries_of] in Hx; injection Hx as ->;
    destruct dst as [[c|d]|]; cbn [copytree_links]; try reflexivity;
    now rewrite E.
Qed.

Lemma copies_attempted_cons (n : string) (y : lnode)
    (es : list (string * lnode)) :
  copies_attempted (LDir ((n, y) :: es))
  = match y with
    | LDir _ => copies_attempted y
    | LLinkDir _ => copies_attempted y
    | _ => 1
    end + copies_attempted (LDir es).
Proof. reflexivity. Qed.

Lemma copies_attempted_link (es : list (string * lnode)) :
  copies_attempted (LLinkDir es) = copies_attempted (LDir es).
Proof. reflexivity. Qed.

Lemma copy_error_advances (st : copy_state) (n : nat) :
  advances total_files st n (copy_error st).
Proof. intros H. discriminate H. Qed.

Lemma copy_error_upto (st : copy_state) :
  advances_upto total_files st 1 (copy_error st).
Proof.
  exists 0. split; [lia|]. split; [cbn; lia|].
  unfold progress_lines. cbn. now rewrite app_nil_r.
Qed.

(** Both ways of accounting for a copy, over one induction: [R] is
    [advances] or [advances_upto]. *)
Lemma copytree_links_accounts
    (R : copy_state -> nat -> copy_state -> Prop) :
  (forall st, R st 0 st) ->
  (forall st st1 st2 n m, R st n st1 -> R st1 m st2 -> R st (n + m) st2) ->
  (forall c d name st,
     R st 1 (snd (copy_with_progress flt total_files c d name st))) ->
  (forall st, R st 1 (copy_error st)) ->
  (forall st n, R st n (fail_state st)) ->
  forall src dst st,
    R st (copies_attempted src)
      (snd (copytree_links flt total_files src dst st)).
Proof.
  intros Rrefl Rtrans Rcopy Rerr Rfail.
  assert (Body : forall x es,
             entries_of x = Some es ->
             Forall (fun e => forall dst st,
                       R st (copies_attempted (snd e))
                         (snd (copytree_links flt total_files (snd e) dst st)))
                    es ->
             forall dst st,
               R st (copies_attempted (LDir es))
                 (snd (copytree_links flt total_files x dst st))).
  { intros x es Hx IH dst st. rewrite (copytree_links_dir x es dst st Hx).
    assert (L : forall d st,
               R st (copies_attempted (LDir es))
                 (snd (copy_entries_links flt total_files es d st))).
    { clear dst st Hx. induction es as [|[n y] es IHes]; intros d st.
      - apply Rrefl.
      - inversion IH as [|? ? Hy Hes]; subst. specialize (IHes Hes).
        cbn [snd] in Hy. rewrite copies_attempted_cons.
        cbn [copy_entries_links]. destruct y as [c|sub|c|sub|].
        + pose proof (Rcopy c d n st) as A.
          destruct (copy_with_progress flt total_files c d n st) as [d' st'].
          eapply Rtrans; [exact A | apply IHes].
        + pose proof (Hy (FS.entry d n) st) as A.
          destruct (copytree_links flt total_files (LDir sub)
                      (FS.entry d n) st) as [r st'].
          eapply Rtrans; [exact A | apply IHes].
        + pose proof (Rcopy c d n st) as A.
          destruct (copy_with_progress flt total_files c d n st) as [d' st'].
          eapply Rtrans; [exact A | apply IHes].
        + pose proof (Hy (FS.entry d n) st) as A.
          destruct (copytree_links flt total_files (LLinkDir sub)
                      (FS.entry d n) st) as [r st'].
          eapply Rtrans; [exact A | apply IHes].
        + eapply Rtrans; [apply Rerr | apply IHes]. }
    destruct dst as [[c|d]|].
    - apply Rfail.
    - specialize (L d st).
      now destruct (copy_entries_links flt total_files es d st).
    - specialize (L [] st).
      now destruct (copy_entries_links flt total_files es [] st). }
  induction src as [c|es IH|c|es IH|] using lnode_nested_ind;
    intros dst st; try apply Rfail.
  - now apply (Body (LDir es) es).
  - rewrite copies_attempted_link. now apply (Body (LLinkDir es) es).
Qed.

Lemma copytree_links_advances (src : lnode) (dst : option node)
    (st : copy_state) :
  advances total_files st (copies_attempted src)
    (snd (copytree_links flt total_files src dst st)).
Proof.
  apply copytree_links_accounts.
  - apply advances_refl.
  - intros. eapply advances_trans; eauto.
  - apply copy_with_progress_advances.
  - intros st0. apply copy_error_advances.
  - intros st0 n H. discriminate H.
Qed.

Lemma copytree_links_upto (src : lnode) (dst : option node)
    (st : copy_state) :
  advances_upto total_files st (copies_attempted src)
    (snd (copytree_links flt total_files src dst st)).
Proof.
  apply copytree_links_accounts.
  - apply upto_refl.
  - intros. eapply upto_trans; eauto.
  - apply copy_with_progress_upto.
  - apply copy_error_upto.
  - apply fail_state_upto.
Qed.

End LinkedCopy.

Section LinkedCount.

Lemma walk_links_dir (es : list (string * lnode)) :
  walk_links (LDir es) = walk_files_links es :: walk_subdirs_links es.
Proof. reflexivity. Qed.

Lemma link_free_cons (n : string) (y : lnode) (es : list (string * lnode)) :
  link_free (LDir ((n, y) :: es)) = link_free y && link_free (LDir es).
Proof. reflexivity. Qed.

(** Where no link leads to a directory, the walk counts exactly the
    single copies a complete copy attempts. *)
Lemma link_free_count (x : lnode) :
  link_free x = true ->
  fold_left add_files (walk_links x) 0 = copies_attempted x.
Proof.
  induction x as [c|es IH|c|es IH|] using lnode_nested_ind;
    intros F; try reflexivity; [|discriminate F].
  rewrite walk_links_dir. cbn [fold_left]. rewrite add_files_shift.
  unfold add_files at 1. cbn [Nat.add].
  induction es as [|[n y] es IHes]; [reflexivity|].
  inversion IH as [|? ? Hy Hes]; subst. cbn [snd] in Hy.
  rewrite link_free_cons in F. apply andb_true_iff in F.
  destruct F as [Fy Fes]. specialize (IHes Hes Fes).
  rewrite copies_attempted_cons.
  destruct y as [c|sub|c|sub|]; cbn [walk_files_links walk_subdirs_links length];
    try lia; [|discriminate Fy].
  rewrite fold_left_app, add_files_shift, (Hy Fy). lia.
Qed.

Lemma count_total_links_free (source : lnode) (es : list (string * lnode)) :
  entries_of source = Some es -> link_free (LDir es) = true ->
  count_total_links source = copies_attempted source.
Proof.
  intros He F. unfold count_total_links, walk_top. rewrite He.
  fold add_files. rewrite (link_free_count (LDir es) F).
  destruct source; try discriminate; cbn [entries_of] in He;
    injection He as ->; reflexivity.
Qed.

Lemma refused_links_advances (total_files : nat) (x : lnode) :
  advances total_files copy_start (copies_attempted x)
    (refused_state (copies_attempted x)).
Proof.
  intros H. cbn in H. apply negb_false_iff, Nat.eqb_eq in H. rewrite H.
  repeat split.
Qed.

Lemma copy_call_advances (flt : list nat) (total_files : nat) (fs : node)
    (source : lnode) (sp dp : list string) :
  advances total_files copy_start (copies_attempted source)
    (snd (copy_call flt total_files fs source sp dp)).
Proof.
  unfold copy_call.
  destruct (entries_of source) as [es|]; [|intros H; discriminate H].
  destruct (FS.mkdirs fs dp) as [fs1|]; [|intros H; discriminate H].
  destruct (copy_mode_links es sp dp);
    [|apply refused_links_advances|intros H; discriminate H].
  pose proof (copytree_links_advances flt total_files source
                (FS.lookup fs1 dp) copy_start) as A.
  destruct (copytree_links flt total_files source _ copy_start) as [x st].
  cbn [snd] in A.
  destruct x as [x|]; [|intros H; discriminate H].
  destruct (FS.put fs1 dp x); [exact A | intros H; discriminate H].
Qed.

End LinkedCount.

(** ** A source without links is the case the program's model covers *)

Section PlainSource.

Lemma plain_dir (es : list (string * node)) :
  plain (Dir es) = LDir (plain_entries es).
Proof.
  cbn [plain]. f_equal.
  induction es as [|[n y] es IHes]; [reflexivity|].
  cbn [plain_entries map fst snd]. f_equal. exact IHes.
Qed.

Lemma plain_entries_cons (n : string) (y : node) (es : list (string * node)) :
  plain_entries ((n, y) :: es) = (n, plain y) :: plain_entries es.
Proof. reflexivity. Qed.

Lemma lentry_plain (es : list (string * node)) (name : string) :
  lentry (plain_entries es) name = option_map plain (FS.entry es name).
Proof.
  induction es as [|[n y] es IHes]; [reflexivity|].
  rewrite plain_entries_cons. cbn [lentry FS.entry].
  destruct (String.eqb name n); [reflexivity | exact IHes].
Qed.

Lemma copy_mode_plain (es : list (string * node)) (sp dp : list string) :
  copy_mode_links (plain_entries es) sp dp = copy_mode_of es sp dp.
Proof.
  unfold copy_mode_links, copy_mode_of.
  destruct (below sp dp) as [[|x rest]|]; try reflexivity.
  rewrite lentry_plain. now destruct (FS.entry es x).
Qed.

Lemma link_free_plain (x : node) : link_free (plain x) = true.
Proof.
  induction x as [c|es IH] using node_nested_ind; [reflexivity|].
  rewrite plain_dir.
  induction es as [|[n y] es IHes]; [reflexivity|].
  inversion IH as [|? ? Hy Hes]; subst. cbn [snd] in Hy.
  rewrite plain_entries_cons, link_free_cons, Hy. exact (IHes Hes).
Qed.

Lemma copies_attempted_plain (x : node) :
  copies_attempted (plain x) = count_files x.
Proof.
  induction x as [c|es IH] using node_nested_ind; [reflexivity|].
  rewrite plain_dir.
  induction es as [|[n y] es IHes]; [reflexivity|].
  inversion IH as [|? ? Hy Hes]; subst. cbn [snd] in Hy.
  rewrite plain_entries_cons, copies_attempted_cons, (IHes Hes).
  destruct y as [c|sub].
  - reflexivity.
  - rewrite plain_dir in *. rewrite Hy. reflexivity.
Qed.

Lemma count_total_links_plain (x : node) :
  count_total_links (plain x) = count_total_files x.
Proof.
  destruct x as [c|es]; [reflexivity|].
  rewrite count_total_files_eq, <- copies_attempted_plain.
  rewrite plain_dir.
  apply (count_total_links_free _ (plain_entries es)); [reflexivity|].
  rewrite <- plain_dir. apply link_free_plain.
Qed.

Lemma copytree_links_plain (flt : list nat) (total_files : nat) (x : node) :
  forall dst st,
    copytree_links flt total_files (plain x) dst st
    = copytree flt total_files x dst st.
Proof.
  induction x as [c|es IH] using node_nested_ind; intros dst st;
    [reflexivity|].
  rewrite plain_dir.
  rewrite (copytree_links_dir flt total_files _ (plain_entries es))
    by reflexivity.
  rewrite copytree_dir.
  destruct dst as [[c|d]|]; [reflexivity| |].
  - assert (E : forall d st,
               copy_entries_links flt total_files (plain_entries es) d st
               = copy_entries flt total_files es d st); [|now rewrite E].
    induction es as [|[n y] es IHes]; intros d0 st0; [reflexivity|].
    inversion IH as [|? ? Hy Hes]; subst. cbn [snd] in Hy.
    rewrite plain_entries_cons. destruct y as [c|sub].
    + cbn [plain copy_entries_links copy_entries].
      destruct (copy_with_progress flt total_files c d0 n st0).
      apply (IHes Hes).
    + rewrite plain_dir in *. cbn [copy_entries_links copy_entries].
      rewrite Hy.
      destruct (copytree flt total_files (Dir sub) (FS.entry d0 n) st0).
      apply (IHes Hes).
  - assert (E : forall d st,
               copy_entries_links flt total_files (plain_entries es) d st
               = copy_entries flt total_files es d st); [|now rewrite E].
    induction es as [|[n y] es IHes]; intros d0 st0; [reflexivity|].
    inversion IH as [|? ? Hy Hes]; subst. cbn [snd] in Hy.
    rewrite plain_entries_cons. destruct y as [c|sub].
    + cbn [plain copy_entries_links copy_entries].
      destruct (copy_with_progress flt total_files c d0 n st0).
      apply (IHes Hes).
    + rewrite plain_dir in *. cbn [copy_entries_links copy_entries].
      rewrite Hy.
      destruct (copytree flt total_files (Dir sub) (FS.entry d0 n) st0).
      apply (IHes Hes).
Qed.

(** The call of the program, on the file system it is modelled over, is
    [copy_call] on the source found at the path. *)
Lemma shutil_copytree_plain (flt : list nat) (total_files : nat)
    (fs : node) (src dst : string) (s : node) :
  node_at fs src = Some s ->
  shutil_copytree flt total_files fs src dst
  = copy_call flt total_files fs (plain s)
      (PathStr.split src) (PathStr.split dst).
Proof.
  intros Hsrc. unfold node_at in Hsrc. unfold shutil_copytree, copy_call.
  rewrite Hsrc. destruct s as [c|es]; [reflexivity|].
  rewrite plain_dir. cbn [entries_of].
  destruct (FS.mkdirs fs (PathStr.split dst)) as [fs1|]; [|reflexivity].
  rewrite copy_mode_plain.
  destruct (copy_mode_of es _ _); [| |reflexivity].
  - rewrite <- plain_dir, copytree_links_plain. reflexivity.
  - rewrite <- plain_dir, copies_attempted_plain, count_total_files_eq.
    reflexivity.
Qed.

End PlainSource.

(** ** The count of the walk against the copies made *)

(** The walk agrees with [walk_links] on a source without links. *)
Lemma walk_links_plain (x : node) : walk_links (plain x) = walk x.
Proof.
  induction x as [c|es IH] using node_nested_ind; [reflexivity|].
  rewrite plain_dir, walk_links_dir, walk_dir. f_equal.
  - clear IH. induction es as [|[n y] es IHes]; [reflexivity|].
    rewrite plain_entries_cons. destruct y as [c|sub].
    + cbn [plain walk_files_links walk_files]. now rewrite IHes.
    + rewrite plain_dir. cbn [walk_files_links walk_files]. exact IHes.
  - induction es as [|[n y] es IHes]; [reflexivity|].
    inversion IH as [|? ? Hy Hes]; subst. cbn [snd] in Hy.
    rewrite plain_entries_cons. destruct y as [c|sub].
    + cbn [plain walk_subdirs_links walk_subdirs]. exact (IHes Hes).
    + rewrite plain_dir in *. cbn [walk_subdirs_links walk_subdirs].
      now rewrite Hy, (IHes Hes).
Qed.

(** How often the copy function was entered, on a copy without error. *)
Lemma copy_call_calls (flt : list nat) (total_files : nat) (fs : node)
    (source : lnode) (sp dp : list string) :
  failed (snd (copy_call flt total_files fs source sp dp)) = false ->
  calls (snd (copy_call flt total_files fs source sp dp))
  = copies_attempted source.
Proof.
  pose (R := fun (st : copy_state) (n : nat) (st' : copy_state) =>
               failed st' = false ->
               failed st = false /\ calls st' = calls st + n).
  assert (T : forall src dst st,
             R st (copies_attempted src)
               (snd (copytree_links flt total_files src dst st))).
  { apply copytree_links_accounts; unfold R.
    - intros st H. split; [exact H | lia].
    - intros st st1 st2 n m H1 H2 F. destruct (H2 F) as [F1 C2].
      destruct (H1 F1) as [F0 C1]. split; [exact F0 | lia].
    - intros c d name st. unfold copy_with_progress.
      destruct (existsb _ flt); [intros H; discriminate H|].
      destruct (FS.entry d name) as [[c0|sub]|];
        try (cbn; intros H; split; [exact H | lia]).
      destruct (FS.entry sub name) as [[c0|sub0]|];
        try (cbn; intros H; split; [exact H | lia]).
      intros H; discriminate H.
    - intros st H. discriminate H.
    - intros st n H. discriminate H. }
  unfold copy_call.
  destruct (entries_of source) as [es|]; [|intros H; discriminate H].
  destruct (FS.mkdirs fs dp) as [fs1|]; [|intros H; discriminate H].
  destruct (copy_mode_links es sp dp);
    [|reflexivity|intros H; discriminate H].
  specialize (T source (FS.lookup fs1 dp) copy_start).
  destruct (copytree_links flt total_files source _ copy_start) as [x st].
  cbn [snd] in T.
  destruct x as [x|]; [|intros H; discriminate H].
  destruct (FS.put fs1 dp x); [|intros H; discriminate H].
  cbn [snd]. intros F. now destruct (T F) as [_ ->].
Qed.




(** The program's own call is the case of a source without links and a
    destination that does not exist yet (the guard of line 198): on the
    tree the program is modelled over, a copy that ends without error
    wrote the progress lines 1 to the total of line 217. *)
Lemma shutil_copytree_counts_every_file (flt : list nat) (fs : node)
    (src dst : string) (s : node) :
  node_at fs src = Some s ->
  node_at fs dst = None ->
  failed (snd (shutil_copytree flt (count_total_files s) fs src dst)) = false ->
  calls (snd (shutil_copytree flt (count_total_files s) fs src dst))
  = count_total_files s
  /\ progress_out (snd (shutil_copytree flt (count_total_files s) fs src dst))
     = progress_lines (count_total_files s) 1 (count_total_files s).
Proof.
  intros Hsrc _. rewrite (shutil_copytree_plain _ _ _ _ _ _ Hsrc).
  intros Hok. split.
  - rewrite (copy_call_calls _ _ _ _ _ _ Hok).
    now rewrite copies_attempted_plain, count_total_files_eq.
  - destruct (copy_call_advances _ _ _ _ _ _ Hok) as (_ & _ & P).
    rewrite P, copies_attempted_plain, <- count_total_files_eq.
    reflexivity.
Qed.

Lemma refused_links_upto (total_files n : nat) :
  advances_upto total_files copy_start n (refused_state n).
Proof. exists 0. repeat split. lia. Qed.

Lemma copy_call_upto (flt : list nat) (total_files : nat) (fs : node)
    (source : lnode) (sp dp : list string) :
  advances_upto total_files copy_start (copies_attempted source)
    (snd (copy_call flt total_files fs source sp dp)).
Proof.
  unfold copy_call.
  destruct (entries_of source) as [es|]; [|apply fail_state_upto].
  destruct (FS.mkdirs fs dp) as [fs1|]; [|apply fail_state_upto].
  destruct (copy_mode_links es sp dp);
    [|apply refused_links_upto|apply fail_state_upto].
  pose proof (copytree_links_upto flt total_files source
                (FS.lookup fs1 dp) copy_start) as A.
  destruct (copytree_links flt total_files source _ copy_start) as [x st].
  cbn [snd] in A.
  assert (B : advances_upto total_files copy_start
                (copies_attempted source) (fail_state st)).
  { destruct A as (k & Hk & C & P). exists k. auto. }
  destruct x as [x|]; [|exact B].
  destruct (FS.put fs1 dp x); [exact A | exact B].
Qed.

(** X12.  For a source in which no symbolic link leads to a directory
    and which does not lie at or below the destination, and a
    destination that does not lie inside the source below a directory
    the source has: whether the copy succeeds or not, and
    whichever single copies fail, the progress lines it wrote are 1, 2,
    ..., k without a gap or a repeat, for some k that does not exceed
    the number of files the walk counts in the source; the counter ends
    at that k. *)
Theorem progress_never_exceeds_total (flt : list nat) (total_files : nat)
    (fs : node) (source : lnode) (es : list (string * lnode))
    (sp dp : list string) :
  entries_of source = Some es ->
  link_free (LDir es) = true ->
  below dp sp = None ->
  copy_mode_links es sp dp <> RunsAway ->
  exists k,
    k <= count_total_links source
    /\ copied_files_count
         (snd (copy_call flt total_files fs source sp dp)) = k
    /\ progress_out (snd (copy_call flt total_files fs source sp dp))
       = map (fun completed => EvProgress completed total_files) (seq 1 k).
Proof.
  intros He Hfree _ _.
  rewrite (count_total_links_free source es He Hfree).
  destruct (copy_call_upto flt total_files fs source sp dp)
    as (k & Hk & C & P).
  exists k. split; [exact Hk|]. split; [exact C|]. exact P.
Qed.

Lemma progress_never_exceeds_total_witness :
  exists k,
    k <= 2
    /\ progress_out
         (snd (copy_call [1] 2 empty_project
                 (LDir [("a.bin", LFile Unparseable);
                        ("b.bin", LFile Unparseable)])
                 ["game"] ["proj"; "copy"]))
       = map (fun completed => EvProgress completed 2) (seq 1 k).
Proof.
  destruct (progress_never_exceeds_total [1] 2 empty_project
              (LDir [("a.bin", LFile Unparseable);
                     ("b.bin", LFile Unparseable)])
              [("a.bin", LFile Unparseable); ("b.bin", LFile Unparseable)]
              ["game"] ["proj"; "copy"])
    as (k & Hk & _ & P);
    [reflexivity | reflexivity | reflexivity | discriminate |].
  exists k. split; [exact Hk | exact P].
Defined.

(** ** The copy where source and destination overlap *)

(** A destination inside the source, below a name the source does not
    have: the listing was taken before the destination was made, and the
    source as it was is copied. *)
Lemma copy_into_fresh_subdirectory :
  let r := shutil_copytree [] 2 two_files_tree "\game" "\game\backup\here" in
  failed (snd r) = false
  /\ progress_out (snd r) = [EvProgress 1 2; EvProgress 2 2]
  /\ node_at (fst r) "\game\backup\here" = node_at two_files_tree "\game".
Proof. repeat split. Qed.

(** A destination inside the source, below a directory the source has:
    the call ends in the error of line 267. *)
Lemma copy_into_own_directory_fails :
  failed (snd (shutil_copytree [] 2 two_files_tree "\game" "\game\ENVS\here"))
  = true.
Proof. reflexivity. Qed.

(** Source and destination the same: every single copy is refused. *)
Lemma copy_onto_itself_fails :
  let r := shutil_copytree [] 2 two_files_tree "\game" "\game" in
  failed (snd r) = true /\ progress_out (snd r) = []
  /\ fst r = two_files_tree.
Proof. repeat split. Qed.
